(** * Matching and normalization engine of the playlist scripts

    A shallow embedding of the pure string functions of
    [src/music_manager.py] and [src/add_unmatched_songs.py]:
    [clean_filename], [normalize_title], [parse_song_line],
    [is_track_number], [clean_for_search], [generate_search_queries] and
    the line loops of [remove_duplicates_from_file] and
    [compare_and_remove_duplicates]; further [get_playlist_titles], the
    chunked playlist calls, the main loop of add_unmatched_songs.py,
    [clean_filename] of [src/music_extractor.py] and
    [get_tracks_to_remove] of [src/remove_artists_from_playlist.py].

    Python strings are modelled as lists of code points in the range
    U+0000..U+00FF (type [ascii]); the character classes [\w], [\s], [\d]
    and [str.lower] follow CPython on that range.  Regular expressions are
    embedded as backtracking matchers that return every way to match at a
    cursor, in the priority order of the [re] module. *)

From Stdlib Require Import Ascii String List Bool Arith NArith Lia.
From stdpp Require Import gmap strings.
Import ListNotations.

Local Open Scope list_scope.

(** ** Characters and strings *)

Abbreviation str := (list ascii).

(** A string literal as a list of code points. *)
Definition py (s : string) : str := list_ascii_of_string s.

Module Py.

Definition code (c : ascii) : N := N_of_ascii c.

Definition in_range (lo hi : N) (c : ascii) : bool :=
  ((lo <=? code c) && (code c <=? hi))%N.

Definition is_code (n : N) (c : ascii) : bool := (code c =? n)%N.

(** [str.isspace] / [\s]: TAB..CR, FS..US, SPACE, NEL, NBSP. *)
Definition is_space (c : ascii) : bool :=
  in_range 9 13 c || in_range 28 32 c || is_code 133 c || is_code 160 c.

(** [\d]: the decimal digits. *)
Definition is_digit (c : ascii) : bool := in_range 48 57 c.

(** [str.isalpha] on U+0000..U+00FF. *)
Definition is_alpha (c : ascii) : bool :=
  in_range 65 90 c || in_range 97 122 c
  || is_code 170 c || is_code 181 c || is_code 186 c
  || in_range 192 214 c || in_range 216 246 c || in_range 248 255 c.

(** Superscript digits and vulgar fractions: numeric but not decimal. *)
Definition is_numeric_other (c : ascii) : bool :=
  is_code 178 c || is_code 179 c || is_code 185 c || in_range 188 190 c.

(** [\w]: alphanumeric or underscore. *)
Definition is_word (c : ascii) : bool :=
  is_alpha c || is_digit c || is_numeric_other c || is_code 95 c.

Definition is_upper (c : ascii) : bool :=
  in_range 65 90 c || in_range 192 214 c || in_range 216 222 c.

Definition lower_char (c : ascii) : ascii :=
  if is_upper c then ascii_of_N (code c + 32) else c.

(** [str.lower] *)
Definition lower (s : str) : str := map lower_char s.

Definition eqc (a b : ascii) : bool := Ascii.eqb a b.

Fixpoint eqs (a b : str) : bool :=
  match a, b with
  | [], [] => true
  | x :: a', y :: b' => eqc x y && eqs a' b'
  | _, _ => false
  end.

Definition newline : ascii := "010"%char.
Definition space : ascii := " "%char.

Fixpoint lstrip_by (p : ascii -> bool) (s : str) : str :=
  match s with
  | c :: t => if p c then lstrip_by p t else s
  | [] => []
  end.

Definition rstrip_by (p : ascii -> bool) (s : str) : str :=
  rev (lstrip_by p (rev s)).

(** [s.strip()] *)
Definition strip (s : str) : str := rstrip_by is_space (lstrip_by is_space s).

(** [s.rstrip('\n')] *)
Definition rstrip_nl (s : str) : str := rstrip_by (eqc newline) s.

(** [s.startswith(p)], returning the remainder. *)
Fixpoint drop_prefix (p s : str) : option str :=
  match p, s with
  | [], _ => Some s
  | x :: p', y :: s' => if eqc x y then drop_prefix p' s' else None
  | _ :: _, [] => None
  end.

(** The text before and after the first occurrence of [sep]:
    [s.split(sep, 1)] when [sep in s], [None] when [sep not in s]. *)
Fixpoint split_first (sep s : str) : option (str * str) :=
  match drop_prefix sep s with
  | Some r => Some ([], r)
  | None =>
      match s with
      | [] => None
      | c :: t =>
          match split_first sep t with
          | Some (a, b) => Some (c :: a, b)
          | None => None
          end
      end
  end.

(** [sep in s] *)
Definition contains (sep s : str) : bool :=
  match split_first sep s with Some _ => true | None => false end.

(** [s.replace(old, new)] for a non-empty [old]: occurrences are found
    left to right and do not overlap; [skip] counts the characters of
    the current occurrence still to be passed over. *)
Fixpoint replace_from (old new : str) (skip : nat) (s : str) : str :=
  match s with
  | [] => []
  | c :: t =>
      match skip with
      | S k => replace_from old new k t
      | O =>
          match drop_prefix old s with
          | Some _ => new ++ replace_from old new (length old - 1) t
          | None => c :: replace_from old new 0 t
          end
      end
  end.

Definition replace (old new s : str) : str := replace_from old new 0 s.

Definition cons_head (c : ascii) (ws : list str) : list str :=
  match ws with
  | w :: ws' => (c :: w) :: ws'
  | [] => [[c]]
  end.

Definition starts_with (p : ascii -> bool) (s : str) : bool :=
  match s with c :: _ => p c | [] => false end.

(** The maximal runs of characters that are not separators. *)
Fixpoint fields (sep : ascii -> bool) (s : str) : list str :=
  match s with
  | [] => []
  | c :: t =>
      if sep c then fields sep t
      else if starts_with (fun x => negb (sep x)) t
           then cons_head c (fields sep t)
           else [c] :: fields sep t
  end.

(** [s.split()] *)
Definition split_ws (s : str) : list str := fields is_space s.

(** [sep.join(l)] *)
Fixpoint join (sep : str) (l : list str) : str :=
  match l with
  | [] => []
  | [w] => w
  | w :: l' => w ++ sep ++ join sep l'
  end.

(** [os.path.splitext(p)[0]] as in CPython's [genericpath._splitext]
    with [sep = '/'], no [altsep] and [extsep = '.']. *)
Fixpoint rfind_from (c : ascii) (i : nat) (s : str) : option nat :=
  match s with
  | [] => None
  | x :: t =>
      match rfind_from c (S i) t with
      | Some j => Some j
      | None => if eqc c x then Some i else None
      end
  end.

Definition rfind (c : ascii) (s : str) : option nat := rfind_from c 0 s.

Definition splitext_root (p : str) : str :=
  let filename_index :=
    match rfind "/"%char p with Some i => S i | None => 0 end in
  match rfind "."%char p with
  | Some dot_index =>
      if filename_index <=? dot_index then
        (* skip all leading dots *)
        if forallb (eqc "."%char)
             (firstn (dot_index - filename_index) (skipn filename_index p))
        then p
        else firstn dot_index p
      else p
  | None => p
  end.

End Py.

(** ** Regular expressions as backtracking matchers *)

Module Re.

(** A position in the subject: the text already passed, most recent
    character first, and the text still ahead. *)
Definition cursor : Type := str * str.

(** A pattern maps a cursor to the cursors at which a match starting
    there can end, best first. *)
Definition re : Type := cursor -> list cursor.

Definition eps : re := fun k => [k].

(** A character class. *)
Definition chr (p : ascii -> bool) : re :=
  fun k =>
    match snd k with
    | c :: r => if p c then [(c :: fst k, r)] else []
    | [] => []
    end.

Definition seq (r1 r2 : re) : re := fun k => flat_map r2 (r1 k).

Definition alt (r1 r2 : re) : re := fun k => r1 k ++ r2 k.

(** [r?], greedy. *)
Definition opt (r : re) : re := alt r eps.

Fixpoint lit (s : str) : re :=
  match s with
  | [] => eps
  | c :: s' => seq (chr (Py.eqc c)) (lit s')
  end.

(** [[p]*], greedy: the longest run first, then shorter ones. *)
Fixpoint star_from (p : ascii -> bool) (b r : str) : list cursor :=
  match r with
  | c :: r' => if p c then star_from p (c :: b) r' ++ [(b, r)] else [(b, r)]
  | [] => [(b, r)]
  end.

Definition star (p : ascii -> bool) : re := fun k => star_from p (fst k) (snd k).

(** [[p]+] *)
Definition plus (p : ascii -> bool) : re := seq (chr p) (star p).

(** [\b] *)
Definition wordb : re :=
  fun k =>
    if xorb (Py.starts_with Py.is_word (fst k)) (Py.starts_with Py.is_word (snd k))
    then [k] else [].

(** [^] without MULTILINE. *)
Definition bol : re :=
  fun k => match fst k with [] => [k] | _ :: _ => [] end.

(** [$] without MULTILINE: the end, or just before a final newline. *)
Definition eol : re :=
  fun k =>
    match snd k with
    | [] => [k]
    | [c] => if Py.eqc Py.newline c then [k] else []
    | _ :: _ :: _ => []
    end.

(** [.] without DOTALL. *)
Definition dot : ascii -> bool := fun c => negb (Py.eqc Py.newline c).

(** [re.sub(p, repl, s)]: scan left to right; at each position take the
    first match of [p]; [skip] counts the characters of the current
    match still to be passed over.  An empty match inserts [repl] and
    moves on by one character. *)
Fixpoint sub_from (p : re) (repl : str) (skip : nat) (b r : str) : str :=
  match r with
  | [] =>
      match skip, p (b, []) with
      | O, _ :: _ => repl
      | _, _ => []
      end
  | c :: t =>
      match skip with
      | S k => sub_from p repl k (c :: b) t
      | O =>
          match p (b, r) with
          | (_, r') :: _ =>
              match length r - length r' with
              | S k => repl ++ sub_from p repl k (c :: b) t
              | O => repl ++ c :: sub_from p repl 0 (c :: b) t
              end
          | [] => c :: sub_from p repl 0 (c :: b) t
          end
      end
  end.

Definition sub (p : re) (repl : str) (s : str) : str := sub_from p repl 0 [] s.

(** [bool(re.match(p, s))] *)
Definition matches (p : re) (s : str) : bool :=
  match p ([], s) with [] => false | _ :: _ => true end.

End Re.

(** ** The patterns of the sources *)

Definition not_word_space (c : ascii) : bool :=
  negb (Py.is_word c || Py.is_space c).

(** [[^\w\s]] *)
Definition re_special : Re.re := Re.chr not_word_space.

(** [\s+] *)
Definition re_spaces : Re.re := Re.plus Py.is_space.

(** [\b(feat|featuring|ft|feat\.|featuring\.)\b.*$] *)
Definition re_feat : Re.re :=
  Re.seq Re.wordb
    (Re.seq
       (Re.alt (Re.lit (py "feat"))
          (Re.alt (Re.lit (py "featuring"))
             (Re.alt (Re.lit (py "ft"))
                (Re.alt (Re.lit (py "feat."))
                   (Re.lit (py "featuring."))))))
       (Re.seq Re.wordb (Re.seq (Re.star Re.dot) Re.eol))).

(** [^\d+[-.]?\d*\s*] *)
Definition re_track_prefix : Re.re :=
  Re.seq Re.bol
    (Re.seq (Re.plus Py.is_digit)
       (Re.seq (Re.opt (Re.chr (fun c => Py.eqc "-"%char c || Py.eqc "."%char c)))
          (Re.seq (Re.star Py.is_digit) (Re.star Py.is_space)))).

(** [\([^)]*\)] *)
Definition re_parens : Re.re :=
  Re.seq (Re.chr (Py.eqc "("%char))
    (Re.seq (Re.star (fun c => negb (Py.eqc ")"%char c))) (Re.chr (Py.eqc ")"%char))).

(** [\[[^\]]*\]] *)
Definition re_brackets : Re.re :=
  Re.seq (Re.chr (Py.eqc "["%char))
    (Re.seq (Re.star (fun c => negb (Py.eqc "]"%char c))) (Re.chr (Py.eqc "]"%char))).

(** [^track(?:\s+\d+)?$] *)
Definition re_track : Re.re :=
  Re.seq Re.bol
    (Re.seq (Re.lit (py "track"))
       (Re.seq (Re.opt (Re.seq (Re.plus Py.is_space) (Re.plus Py.is_digit)))
          Re.eol)).

(** ** music_manager.py *)

Definition clean_filename (filename : str) : str :=
  let name := Py.splitext_root filename in
  let name := Py.replace (py "._") [] name in
  let name := Re.sub re_track_prefix [] name in
  let name := Re.sub re_parens [] name in
  let name := Re.sub re_brackets [] name in
  let name := Re.sub re_special (py " ") name in
  let name := Re.sub re_spaces (py " ") name in
  Py.strip name.

Definition normalize_title (title : str) : str :=
  let title := Py.lower title in
  let title := Re.sub re_special (py " ") title in
  let title := Py.strip (Re.sub re_spaces (py " ") title) in
  let title := Re.sub re_feat [] title in
  title.

(** ** add_unmatched_songs.py *)

Definition parse_song_line (line : str) : str * str :=
  match Py.split_first (py " by ") line with
  | None => (line, [])
  | Some (title, artists) => (Py.strip title, Py.strip artists)
  end.

Definition is_track_number (title : str) : bool :=
  let clean_title := Re.sub re_special (py " ") (Py.lower title) in
  let clean_title := Py.strip (Re.sub re_spaces (py " ") clean_title) in
  Re.matches re_track clean_title.

Definition clean_for_search (text : str) : str :=
  let text := Py.lower text in
  let text := Re.sub re_feat [] text in
  let text := Re.sub re_special (py " ") text in
  let text := Py.strip (Re.sub re_spaces (py " ") text) in
  text.

Definition articles : list str := [py "the"; py "a"; py "an"].

(** [w not in {'the', 'a', 'an'}] *)
Definition not_article (w : str) : bool := negb (existsb (Py.eqs w) articles).

Definition generate_search_queries (title artists : str) : list str :=
  let queries := [] in
  let clean_title := clean_for_search title in
  let clean_artists := clean_for_search artists in
  let queries := queries ++ [clean_title ++ py " " ++ clean_artists] in
  let queries := queries ++ [clean_title] in
  let queries :=
    match Py.split_first (py " _ ") clean_artists with
    | Some (first_artist, _) => queries ++ [clean_title ++ py " " ++ first_artist]
    | None => queries
    end in
  let title_words := Py.split_ws clean_title in
  let queries :=
    if Nat.ltb 2 (length title_words) then
      let filtered_words := List.filter not_article title_words in
      match filtered_words with
      | _ :: _ => queries ++ [Py.join (py " ") filtered_words ++ py " " ++ clean_artists]
      | [] => queries
      end
    else queries in
  queries.

(** ** The line loops of music_manager.py *)

(** The loop of [remove_duplicates_from_file] over the lines of the input
    file: the state is the set [seen] and the list [unique_lines]. *)
Fixpoint remove_duplicates_loop (seen : gset str) (unique_lines : list str)
    (lines : list str) : list str :=
  match lines with
  | [] => unique_lines
  | line :: rest =>
      let line := Py.rstrip_nl line in
      let normalized_line := normalize_title line in
      if decide (normalized_line ∈ seen)
      then remove_duplicates_loop seen unique_lines rest
      else remove_duplicates_loop ({[normalized_line]} ∪ seen) (unique_lines ++ [line]) rest
  end.

(** The lines written back by [remove_duplicates_from_file]. *)
Definition remove_duplicates_from_file (lines : list str) : list str :=
  remove_duplicates_loop ∅ [] lines.

(** The loop of [compare_and_remove_duplicates]: the state is
    [kept_lines] and [removed_count]. *)
Fixpoint compare_loop (playlist_titles : gset str) (kept_lines : list str)
    (removed_count : nat) (lines : list str) : list str * nat :=
  match lines with
  | [] => (kept_lines, removed_count)
  | line :: rest =>
      let line := Py.strip line in
      match line with
      | [] => compare_loop playlist_titles kept_lines removed_count rest
      | _ :: _ =>
          let normalized_line := normalize_title line in
          if decide (normalized_line ∈ playlist_titles)
          then compare_loop playlist_titles kept_lines (removed_count + 1) rest
          else compare_loop playlist_titles (kept_lines ++ [line]) removed_count rest
      end
  end.

(** The kept lines and the removed count of [compare_and_remove_duplicates]
    for a playlist with the given normalized titles. *)
Definition compare_and_remove_duplicates (playlist_titles : gset str)
    (lines : list str) : list str * nat :=
  compare_loop playlist_titles [] 0 lines.

(** ** The rest of music_manager.py *)

(** An item of a playlist: [track['track']], which may be missing, with
    its name, the names of its artists and its id. *)
Record track : Type := Track {
  track_name : str;
  track_artists : list str;
  track_id : str
}.

(** [f"{title} by {' _ '.join(artists)}"] *)
Definition full_title (t : track) : str :=
  track_name t ++ py " by " ++ Py.join (py " _ ") (track_artists t).

(** The loop of [get_playlist_titles] over the items of the playlist. *)
Fixpoint get_playlist_titles_loop (titles : gset str) (tracks : list (option track))
    : gset str :=
  match tracks with
  | [] => titles
  | None :: rest => get_playlist_titles_loop titles rest
  | Some t :: rest =>
      get_playlist_titles_loop ({[normalize_title (full_title t)]} ∪ titles) rest
  end.

Definition get_playlist_titles (tracks : list (option track)) : gset str :=
  get_playlist_titles_loop ∅ tracks.

(** The line that [create_playlist_from_directory] writes to
    unmatched_songs.txt for a music file without a match:
    [f"{track_name} by {artist_name}"] with
    [track_name = clean_filename(basename)]. *)
Definition unmatched_song (basename artist_name : str) : str :=
  clean_filename basename ++ py " by " ++ artist_name.

(** [range(start, stop, step)] for a positive step. *)
Definition py_range (start stop step : nat) : list nat :=
  map (fun k => start + k * step) (seq 0 ((stop - start + (step - 1)) / step)).

(** [l[i:j]] for [0 <= i <= j]. *)
Definition slice {A : Type} (l : list A) (i j : nat) : list A := firstn (j - i) (skipn i l).

Definition chunk_size : nat := 100.

(** The calls of [sp.playlist_add_items] (in [add_tracks_to_playlist] and
    [create_playlist_from_directory]) and of
    [sp.playlist_remove_all_occurrences_of_items] (in
    [remove_tracks_from_playlist]): one per chunk, in order. *)
Definition chunked_calls (track_ids : list str) : list (list str) :=
  map (fun i => slice track_ids i (i + chunk_size))
      (py_range 0 (length track_ids) chunk_size).

Definition add_tracks_to_playlist (track_ids : list str) : list (list str) :=
  chunked_calls track_ids.

Definition remove_tracks_from_playlist (track_ids : list str) : list (list str) :=
  chunked_calls track_ids.

(** ** music_extractor.py *)

Module MusicExtractor.

Definition clean_filename (filename : str) : str :=
  let name := Py.splitext_root filename in
  let name := Re.sub re_parens [] name in
  let name := Re.sub re_brackets [] name in
  Py.strip name.

End MusicExtractor.

(** ** remove_artists_from_playlist.py *)

(** A literal character under IGNORECASE. *)
Definition chr_ignorecase (x : ascii) : Re.re :=
  Re.chr (fun c => Py.eqc (Py.lower_char c) (Py.lower_char x)).

Fixpoint lit_ignorecase (s : str) : Re.re :=
  match s with
  | [] => Re.eps
  | x :: s' => Re.seq (chr_ignorecase x) (lit_ignorecase s')
  end.

(** [re.compile(r'Track\s+\d+', re.IGNORECASE)] *)
Definition re_track_numbered : Re.re :=
  Re.seq (lit_ignorecase (py "Track"))
    (Re.seq (Re.plus Py.is_space) (Re.plus Py.is_digit)).

(** [bool(pattern.search(s))]: is there a match starting anywhere. *)
Fixpoint search_from (p : Re.re) (b r : str) : bool :=
  match p (b, r) with
  | _ :: _ => true
  | [] =>
      match r with
      | [] => false
      | c :: t => search_from p (c :: b) t
      end
  end.

Definition search (p : Re.re) (s : str) : bool := search_from p [] s.

Fixpoint get_tracks_to_remove (tracks : list (option track)) : list str :=
  match tracks with
  | [] => []
  | None :: rest => get_tracks_to_remove rest
  | Some t :: rest =>
      if search re_track_numbered (track_name t)
      then track_id t :: get_tracks_to_remove rest
      else get_tracks_to_remove rest
  end.

(** ** The main loop of add_unmatched_songs.py *)

Section MainLoop.

(** What the catalog answers to a query, given the queries made before:
    the id of the best match, or nothing (also when the search fails). *)
Variable search_track : list str -> str -> option str.

(** [if track_id:] *)
Definition truthy (track_id : option str) : bool :=
  match track_id with
  | Some (_ :: _) => true
  | _ => false
  end.

(** [for query in queries: track_id = search_track(sp, query); if
    track_id: break], with the queries made so far. *)
Fixpoint try_queries (made : list str) (track_id : option str) (queries : list str)
    : option str * list str :=
  match queries with
  | [] => (track_id, made)
  | query :: rest =>
      let track_id := search_track made query in
      let made := made ++ [query] in
      if truthy track_id then (track_id, made) else try_queries made track_id rest
  end.

(** The state of the loop over the lines of the file. *)
Record progress : Type := Progress {
  found_tracks : list str;
  not_found_tracks : list str;
  queries_made : list str
}.

Fixpoint process_lines (st : progress) (lines : list str) : progress :=
  match lines with
  | [] => st
  | line :: rest =>
      let line := Py.strip line in
      match line with
      | [] => process_lines st rest
      | _ :: _ =>
          let (title, artists) := parse_song_line line in
          if is_track_number title then process_lines st rest
          else
            let queries := generate_search_queries title artists in
            let (track_id, made) := try_queries (queries_made st) None queries in
            match track_id with
            | Some (c :: id) =>
                process_lines
                  (Progress (found_tracks st ++ [c :: id]) (not_found_tracks st) made) rest
            | _ =>
                process_lines
                  (Progress (found_tracks st) (not_found_tracks st ++ [line]) made) rest
            end
      end
  end.

(** The text written back to the file: the lines not found, each followed
    by a line feed, or nothing. *)
Definition written_back (st : progress) : str :=
  match not_found_tracks st with
  | [] => []
  | _ :: _ => Py.join [Py.newline] (not_found_tracks st) ++ [Py.newline]
  end.

End MainLoop.

(** ** Direct descriptions of the substitutions *)

(** What [re.sub(r'[^\w\s]', ' ', s)] does to one character. *)
Definition depunct_char (c : ascii) : ascii :=
  if not_word_space c then " "%char else c.

(** Every run of whitespace becomes one space. *)
Fixpoint collapse (s : str) : str :=
  match s with
  | [] => []
  | c :: t =>
      if Py.is_space c
      then (if Py.starts_with Py.is_space t then collapse t else " "%char :: collapse t)
      else c :: collapse t
  end.

(** The words of a text: its maximal runs of [\w] characters. *)
Definition words (s : str) : list str := Py.fields (fun c => negb (Py.is_word c)) s.

Definition unwords (ws : list str) : str := Py.join (py " ") ws.

(** The words of a text joined by single spaces. *)
Definition squeeze (s : str) : str := unwords (words s).

(** The featuring-marker words. *)
Definition markers : list str := [py "feat"; py "featuring"; py "ft"].

Definition is_marker (w : str) : bool := existsb (Py.eqs w) markers.

(** The run of word characters a text starts with. *)
Fixpoint word_at (s : str) : str :=
  match s with
  | c :: t => if Py.is_word c then c :: word_at t else []
  | [] => []
  end.

(** The text before the first word that is a featuring marker;
    [in_word] tells whether the previous character was a word character. *)
Fixpoint truncate_at_marker (in_word : bool) (s : str) : str :=
  match s with
  | [] => []
  | c :: t =>
      if negb in_word && is_marker (word_at s) then []
      else c :: truncate_at_marker (Py.is_word c) t
  end.

(** The words before the first featuring marker. *)
Fixpoint before_marker (ws : list str) : list str :=
  match ws with
  | [] => []
  | w :: ws' => if is_marker w then [] else w :: before_marker ws'
  end.

(** A text with no line feed in it. *)
Definition single_line (s : str) : bool := forallb Re.dot s.

(** ** The operations as the specification words them *)

(** NormalizedKey as the data model words it: lowercase, strip the text
    from a featuring marker onward, replace every character that is
    neither a word character nor whitespace with a space, collapse runs
    of whitespace, trim. *)
Definition NormalizedKey (text : str) : str :=
  let text := Py.lower text in
  let text := truncate_at_marker false text in
  let text := map depunct_char text in
  let text := collapse text in
  Py.strip text.

(** The title as [is_track_number] cleans it: lowercased, characters
    that are neither word characters nor whitespace replaced by spaces,
    whitespace collapsed, trimmed. *)
Definition cleaned_title (title : str) : str :=
  Py.strip (collapse (map depunct_char (Py.lower title))).

(** The key under which [remove_duplicates_from_file] remembers a line
    of the file. *)
Definition line_key (line : str) : str := normalize_title (Py.rstrip_nl line).

(** How [compare_and_remove_duplicates] classifies a line of the file. *)
Definition blank_line (line : str) : Prop := Py.strip line = [].

Definition kept_line (reference : gset str) (line : str) : Prop :=
  Py.strip line <> [] /\ normalize_title line ∉ reference.

Definition removed_line (reference : gset str) (line : str) : Prop :=
  Py.strip line <> [] /\ normalize_title line ∈ reference.

#[global] Instance blank_line_dec line : Decision (blank_line line).
Proof. unfold blank_line. apply _. Defined.

#[global] Instance kept_line_dec reference line : Decision (kept_line reference line).
Proof. unfold kept_line. apply _. Defined.

#[global] Instance removed_line_dec reference line : Decision (removed_line reference line).
Proof. unfold removed_line. apply _. Defined.

(** buildReferenceSet as the spec words it: the NormalizedKey of
    ["{title} by {artists joined with ' _ '}"] for every entry. *)
Definition buildReferenceSet_spec (tracks : list (option track)) : gset str :=
  list_to_set (NormalizedKey <$> (full_title <$> omap id tracks)).

(** filterAgainstReferenceSet as the spec words it: blank lines are
    passed over; another line is removed and counted when its
    NormalizedKey is in the reference set, and kept otherwise. *)
Definition filterAgainstReferenceSet_spec (lines : list str) (referenceSet : gset str)
    : list str * nat :=
  (Py.strip <$> filter (fun line => Py.strip line <> [] /\ NormalizedKey line ∉ referenceSet)
                  lines,
   length (filter (fun line => Py.strip line <> [] /\ NormalizedKey line ∈ referenceSet)
             lines)).

(** parseSongLine as the spec words it: without the delimiter the title
    is the whole trimmed line. *)
Definition parseSongLine_spec (line : str) : str * str :=
  match Py.split_first (py " by ") line with
  | None => (Py.strip line, [])
  | Some (title, artists) => (Py.strip title, Py.strip artists)
  end.

(** cleanFilename as the spec words it: the hidden-file marker is
    stripped where it is a prefix of the name. *)
Definition strip_hidden_prefix (name : str) : str :=
  match Py.drop_prefix (py "._") name with
  | Some rest => rest
  | None => name
  end.

Definition cleanFilename_spec (filename : str) : str :=
  let name := Py.splitext_root filename in
  let name := strip_hidden_prefix name in
  let name := Re.sub re_track_prefix [] name in
  let name := Re.sub re_parens [] name in
  let name := Re.sub re_brackets [] name in
  let name := map depunct_char name in
  let name := collapse name in
  Py.strip name.

(** The artist text of a song line: the artist names joined by [" _ "]. *)
Definition artist_text (artists : list str) : str := Py.join (py " _ ") artists.

(** The first query as the spec words it: the cleaned title, a space, and
    the artist names, each cleaned on its own, joined by single spaces. *)
Definition first_query_spec (title : str) (artists : list str) : str :=
  clean_for_search title ++ py " "
  ++ Py.join (py " ") (map clean_for_search artists).

(** ** Vocabulary of the proofs *)

(** A word: a non-empty run of word characters. *)
Definition token (w : str) : Prop := w <> [] /\ forallb Py.is_word w = true.

(** A text that [str.lower] leaves as it is. *)
Definition lowered (w : str) : Prop := Py.lower w = w.

(** How many of the words are a lone underscore. *)
Definition underscores (l : list str) : nat :=
  length (List.filter (Py.eqs (py "_")) l).

(** What follows the alternation in [re_feat]: [\b.*$]. *)
Definition re_feat_tail : Re.re :=
  Re.seq Re.wordb (Re.seq (Re.star Re.dot) Re.eol).

(** One alternative of the featuring pattern, tried at a cursor. *)
Definition try_marker (m b r : str) : bool :=
  match Py.drop_prefix m r with
  | Some r' =>
      xorb (Py.starts_with Py.is_word (rev m ++ b)) (Py.starts_with Py.is_word r')
  | None => false
  end.

(** Where [$] can stand: at the end or before a final line feed. *)
Definition at_eol (r : str) : Prop := r = [] \/ r = [Py.newline].

(** A text holds a group: an opening character with a closing character
    somewhere after it. *)
Definition group_in (opening closing : ascii) (s : str) : Prop :=
  exists a b d, s = a ++ opening :: b ++ closing :: d.

(** An opening character, anything but the closing one, the closing
    character: the shape of [re_parens] and [re_brackets]. *)
Definition re_group (opening closing : ascii) : Re.re :=
  Re.seq (Re.chr (Py.eqc opening))
    (Re.seq (Re.star (fun c => negb (Py.eqc closing c))) (Re.chr (Py.eqc closing))).

(** [s.lower().startswith(p.lower())], returning the remainder. *)
Fixpoint drop_prefix_ignorecase (p s : str) : option str :=
  match p, s with
  | [], _ => Some s
  | x :: p', y :: s' =>
      if Py.eqc (Py.lower_char y) (Py.lower_char x)
      then drop_prefix_ignorecase p' s' else None
  | _ :: _, [] => None
  end.

(** A line of the file that the main loop of add_unmatched_songs.py
    searches for: not blank, and its title no placeholder. *)
Definition searched_line (line : str) : Prop :=
  Py.strip line <> [] /\
  is_track_number (fst (parse_song_line (Py.strip line))) = false.

#[global] Instance searched_line_dec line : Decision (searched_line line).
Proof. unfold searched_line. apply _. Defined.

(** The characters of a cleaned text: lowercase word characters and the
    space. *)
Definition clean_char (c : ascii) : bool :=
  (Py.is_word c && Py.eqc (Py.lower_char c) c) || Py.eqc " "%char c.

(** A name that holds, somewhere, the letters of "track" in any case,
    then whitespace, then a digit. *)
Definition numbered_track_name (name : str) : Prop :=
  exists pre t5 sp d post,
    name = pre ++ t5 ++ sp ++ d :: post /\
    Py.lower t5 = py "track" /\
    sp <> [] /\ forallb Py.is_space sp = true /\ Py.is_digit d = true.

(** A text that is written to a file and read back as one line: it
    holds no line feed and no carriage return. *)
Definition no_line_break (s : str) : Prop :=
  forallb (fun c => negb (Py.eqc Py.newline c) && negb (Py.eqc "013"%char c)) s = true.

(** The lowercase words of a text before its first featuring marker. *)
Definition key_words (x : str) : list str := before_marker (words (Py.lower x)).

(** Whether [normalize_title] cuts a featuring suffix off a text that has
    words before the marker. *)
Definition suffix_cut (x : str) : bool :=
  existsb is_marker (words (Py.lower x))
  && match key_words x with [] => false | _ :: _ => true end.

(** * Properties *)

(** ** Character classes *)

Ltac by_cases_on_char c :=
  destruct c as [[] [] [] [] [] [] [] []]; vm_compute; congruence.

Lemma space_not_word c : Py.is_space c = true -> Py.is_word c = false.
Proof. by_cases_on_char c. Qed.

Lemma lower_char_word c : Py.is_word (Py.lower_char c) = Py.is_word c.
Proof. by_cases_on_char c. Qed.

Lemma lower_char_space c : Py.is_space (Py.lower_char c) = Py.is_space c.
Proof. by_cases_on_char c. Qed.

Lemma lower_char_idem c : Py.lower_char (Py.lower_char c) = Py.lower_char c.
Proof. by_cases_on_char c. Qed.

Lemma lower_char_newline c : Py.eqc Py.newline (Py.lower_char c) = Py.eqc Py.newline c.
Proof. by_cases_on_char c. Qed.

Lemma newline_is_space c : Py.eqc Py.newline c = true -> Py.is_space c = true.
Proof. by_cases_on_char c. Qed.

Lemma digit_is_word c : Py.is_digit c = true -> Py.is_word c = true.
Proof. by_cases_on_char c. Qed.

Lemma eqc_eq a b : Py.eqc a b = true <-> a = b.
Proof. apply Ascii.eqb_eq. Qed.

Lemma eqc_refl a : Py.eqc a a = true.
Proof. apply Ascii.eqb_refl. Qed.

Lemma eqs_eq a b : Py.eqs a b = true <-> a = b.
Proof.
  revert b. induction a as [|x a IH]; intros [|y b]; simpl; try (split; congruence).
  rewrite andb_true_iff, eqc_eq, IH. split; [intros [-> ->]; reflexivity | intros H; injection H; auto].
Qed.

(** ** Stripping *)

Lemma lstrip_by_app_last p a c :
  Py.lstrip_by p (a ++ [c]) =
  if forallb p a then (if p c then [] else [c]) else Py.lstrip_by p a ++ [c].
Proof.
  induction a as [|x a IH]; simpl; [reflexivity|].
  destruct (p x); simpl; [exact IH | reflexivity].
Qed.

Lemma lstrip_by_nil_iff p s : Py.lstrip_by p s = [] <-> forallb p s = true.
Proof.
  induction s as [|x s IH]; simpl; [tauto|].
  destruct (p x); simpl; [exact IH | split; discriminate].
Qed.

(** [rstrip_by] by recursion from the left. *)
Lemma rstrip_by_cons p c t :
  Py.rstrip_by p (c :: t) =
  match Py.rstrip_by p t with
  | [] => if p c then [] else [c]
  | r => c :: r
  end.
Proof.
  unfold Py.rstrip_by. simpl. rewrite lstrip_by_app_last.
  destruct (forallb p (rev t)) eqn:E.
  - apply lstrip_by_nil_iff in E. rewrite E. simpl. destruct (p c); reflexivity.
  - destruct (Py.lstrip_by p (rev t)) as [|y l] eqn:E2.
    + apply lstrip_by_nil_iff in E2. congruence.
    + rewrite rev_app_distr. simpl.
      destruct (rev l ++ [y]) eqn:E3; [destruct (rev l); discriminate | reflexivity].
Qed.

Lemma rstrip_by_nil p : Py.rstrip_by p [] = [].
Proof. reflexivity. Qed.

Lemma rstrip_by_cons_keep p c t :
  p c = false -> Py.rstrip_by p (c :: t) = c :: Py.rstrip_by p t.
Proof.
  intros H. rewrite rstrip_by_cons, H. destruct (Py.rstrip_by p t); reflexivity.
Qed.

(** ** Substitution *)

Lemma sub_from_skip p repl k : forall b r,
  k <= length r ->
  Re.sub_from p repl k b r =
  Re.sub_from p repl 0 (rev (firstn k r) ++ b) (skipn k r).
Proof.
  induction k as [|k IH]; intros b r Hk.
  - reflexivity.
  - destruct r as [|c t]; simpl in Hk; [lia|].
    simpl Re.sub_from at 1. rewrite IH by lia.
    simpl. rewrite <- app_assoc. reflexivity.
Qed.

(** [re.sub(r'[^\w\s]', ' ', s)] acts character by character. *)
Lemma sub_special_map r : forall b,
  Re.sub_from re_special (py " ") 0 b r = map depunct_char r.
Proof.
  induction r as [|c t IH]; intros b; [reflexivity|].
  cbn [Re.sub_from map]. unfold re_special at 1, Re.chr, depunct_char. cbn [fst snd].
  destruct (not_word_space c).
  - replace (length (c :: t) - length t) with 1 by (simpl; lia).
    simpl. f_equal. apply IH.
  - f_equal. apply IH.
Qed.

Lemma star_from_hd p : forall r b,
  exists b' l, Re.star_from p b r = (b', Py.lstrip_by p r) :: l.
Proof.
  induction r as [|c t IH]; intros b; simpl.
  - eauto.
  - destruct (p c); [|eauto].
    destruct (IH (c :: b)) as (b' & l & ->). simpl. eauto.
Qed.

Lemma lstrip_by_length p s : length (Py.lstrip_by p s) <= length s.
Proof.
  induction s as [|c t IH]; simpl; [lia|]. destruct (p c); simpl; lia.
Qed.

Lemma skipn_lstrip_by p s :
  skipn (length s - length (Py.lstrip_by p s)) s = Py.lstrip_by p s.
Proof.
  induction s as [|c t IH]; simpl; [reflexivity|].
  destruct (p c).
  - pose proof (lstrip_by_length p t).
    replace (S (length t) - length (Py.lstrip_by p t))
      with (S (length t - length (Py.lstrip_by p t))) by lia.
    exact IH.
  - simpl. replace (length t - length t) with 0 by lia. reflexivity.
Qed.

Lemma lstrip_by_starts p s : Py.starts_with p (Py.lstrip_by p s) = false.
Proof.
  induction s as [|c t IH]; simpl; [reflexivity|].
  destruct (p c) eqn:E; [exact IH | simpl; exact E].
Qed.

Lemma collapse_space c t :
  Py.is_space c = true ->
  collapse (c :: t) = " "%char :: collapse (Py.lstrip_by Py.is_space t).
Proof.
  revert c. induction t as [|x t IH]; intros c Hc; simpl; rewrite Hc.
  - reflexivity.
  - destruct (Py.is_space x) eqn:Hx.
    + rewrite <- (IH x Hx). simpl. rewrite Hx. reflexivity.
    + simpl. rewrite Hx. reflexivity.
Qed.

(** [re.sub(r'\s+', ' ', s)] collapses every run of whitespace. *)
Lemma sub_spaces_collapse_len n : forall r b,
  length r <= n -> Re.sub_from re_spaces (py " ") 0 b r = collapse r.
Proof.
  induction n as [|n IH]; intros r b Hn.
  - destruct r; [reflexivity | simpl in Hn; lia].
  - destruct r as [|c t]; [reflexivity|].
    simpl in Hn.
    destruct (Py.is_space c) eqn:Hc.
    + rewrite (collapse_space c t Hc).
      simpl. unfold re_spaces, Re.plus, Re.seq, Re.chr. simpl. rewrite Hc. simpl.
      rewrite app_nil_r. unfold Re.star. simpl.
      destruct (star_from_hd Py.is_space t (c :: b)) as (b' & l & ->).
      pose proof (lstrip_by_length Py.is_space t).
      replace (S (length t) - length (Py.lstrip_by Py.is_space t))
        with (S (length t - length (Py.lstrip_by Py.is_space t))) by lia.
      rewrite sub_from_skip by lia.
      rewrite skipn_lstrip_by. simpl. f_equal.
      apply IH. lia.
    + simpl. unfold re_spaces, Re.plus, Re.seq, Re.chr. simpl. rewrite Hc. simpl.
      f_equal. apply IH. lia.
Qed.

Lemma sub_spaces_collapse s : Re.sub re_spaces (py " ") s = collapse s.
Proof. apply (sub_spaces_collapse_len (length s)). lia. Qed.

Lemma sub_special_depunct s : Re.sub re_special (py " ") s = map depunct_char s.
Proof. apply sub_special_map. Qed.

(** ** Fields and joins *)

Lemma fields_lstrip sep s : Py.fields sep (Py.lstrip_by sep s) = Py.fields sep s.
Proof.
  induction s as [|c t IH]; simpl; [reflexivity|].
  destruct (sep c) eqn:E; [exact IH | simpl; rewrite E; reflexivity].
Qed.

Lemma fields_nonempty sep s : Forall (fun w => w <> []) (Py.fields sep s).
Proof.
  induction s as [|c t IH]; simpl; [constructor|].
  destruct (sep c); [exact IH|].
  destruct (Py.starts_with _ t).
  - destruct (Py.fields sep t) as [|w ws]; simpl.
    + constructor; [discriminate | constructor].
    + inversion IH; subst. constructor; [discriminate | assumption].
  - constructor; [discriminate | assumption].
Qed.

Lemma fields_starts sep s :
  Py.starts_with (fun x => negb (sep x)) s = true -> Py.fields sep s <> [].
Proof.
  destruct s as [|c t]; simpl; [discriminate|].
  intros H. apply negb_true_iff in H. rewrite H.
  destruct (Py.starts_with _ t); [|discriminate].
  destruct (Py.fields sep t); discriminate.
Qed.

Lemma join_nil_inv sep ws :
  Forall (fun w => w <> []) ws -> Py.join sep ws = [] -> ws = [].
Proof.
  intros H. destruct ws as [|w ws]; [reflexivity|].
  inversion H; subst. destruct w; [congruence|].
  simpl. destruct ws; discriminate.
Qed.

Lemma join_cons sep w ws :
  ws <> [] -> Py.join sep (w :: ws) = w ++ sep ++ Py.join sep ws.
Proof. destruct ws; [congruence | reflexivity]. Qed.

Lemma join_cons_head sep c ws :
  ws <> [] -> Py.join sep (Py.cons_head c ws) = c :: Py.join sep ws.
Proof.
  destruct ws as [|w ws]; [congruence|]. intros _. simpl.
  destruct ws; reflexivity.
Qed.

Lemma lstrip_collapse s :
  Py.lstrip_by Py.is_space (collapse s) = collapse (Py.lstrip_by Py.is_space s).
Proof.
  destruct s as [|c t]; [reflexivity|].
  destruct (Py.is_space c) eqn:Hc.
  - rewrite (collapse_space c t Hc). simpl. rewrite Hc.
    pose proof (lstrip_by_starts Py.is_space t) as H.
    destruct (Py.lstrip_by Py.is_space t) as [|x u]; [reflexivity|].
    simpl in H. simpl. rewrite H. simpl. rewrite H. reflexivity.
  - simpl. rewrite Hc. simpl. rewrite Hc. reflexivity.
Qed.

Lemma rstrip_collapse_len n : forall s,
  length s <= n ->
  Py.starts_with Py.is_space s = false ->
  Py.rstrip_by Py.is_space (collapse s) = Py.join (py " ") (Py.split_ws s).
Proof.
  induction n as [|n IH]; intros s Hn Hs.
  - destruct s; [reflexivity | simpl in Hn; lia].
  - destruct s as [|c t]; [reflexivity|].
    simpl in Hn, Hs. unfold Py.split_ws. simpl. rewrite Hs.
    rewrite rstrip_by_cons_keep by exact Hs.
    destruct t as [|x u]; [reflexivity|].
    cbn [Py.starts_with].
    destruct (Py.is_space x) eqn:Hx; cbn [negb].
    + rewrite (collapse_space x u Hx).
      rewrite rstrip_by_cons.
      assert (Hr : Py.rstrip_by Py.is_space (collapse (Py.lstrip_by Py.is_space u))
                   = Py.join (py " ") (Py.fields Py.is_space (x :: u))).
      { rewrite IH.
        - unfold Py.split_ws. rewrite fields_lstrip. simpl. rewrite Hx. reflexivity.
        - pose proof (lstrip_by_length Py.is_space u). simpl in Hn. lia.
        - apply lstrip_by_starts. }
      rewrite Hr.
      pose proof (fields_nonempty Py.is_space (x :: u)) as Hne.
      destruct (Py.fields Py.is_space (x :: u)) as [|w ws] eqn:Ef.
      * reflexivity.
      * rewrite (join_cons _ [c] (w :: ws)) by discriminate.
        change (py " ") with [" "%char] in *.
        destruct (Py.join [" "%char] (w :: ws)) eqn:Ej.
        { apply join_nil_inv in Ej; [discriminate | exact Hne]. }
        reflexivity.
    + rewrite join_cons_head.
      * f_equal. apply IH; [simpl in *; lia | simpl; exact Hx].
      * apply fields_starts. simpl. rewrite Hx. reflexivity.
Qed.

(** Collapsing whitespace and trimming is [' '.join(s.split())]. *)
Lemma strip_collapse s :
  Py.strip (collapse s) = Py.join (py " ") (Py.split_ws s).
Proof.
  unfold Py.strip. rewrite lstrip_collapse.
  rewrite (rstrip_collapse_len (length (Py.lstrip_by Py.is_space s))).
  - unfold Py.split_ws. rewrite fields_lstrip. reflexivity.
  - lia.
  - apply lstrip_by_starts.
Qed.

Lemma depunct_char_space c : Py.is_space (depunct_char c) = negb (Py.is_word c).
Proof. by_cases_on_char c. Qed.

Lemma depunct_char_word c : Py.is_word c = true -> depunct_char c = c.
Proof. by_cases_on_char c. Qed.

Lemma fields_map sep sep' (f : ascii -> ascii) s :
  (forall c, sep (f c) = sep' c) ->
  (forall c, sep' c = false -> f c = c) ->
  Py.fields sep (map f s) = Py.fields sep' s.
Proof.
  intros H1 H2. induction s as [|c t IH]; simpl; [reflexivity|].
  rewrite H1. destruct (sep' c) eqn:E; [exact IH|].
  rewrite (H2 c E), IH.
  replace (Py.starts_with (fun x => negb (sep x)) (map f t))
    with (Py.starts_with (fun x => negb (sep' x)) t); [reflexivity|].
  destruct t; simpl; [reflexivity | rewrite H1; reflexivity].
Qed.

(** De-punctuation, whitespace collapse and trim, as the sources chain
    them, leave the words of the text joined by single spaces. *)
Lemma depunct_collapse_strip s :
  Py.strip (Re.sub re_spaces (py " ") (Re.sub re_special (py " ") s)) = squeeze s.
Proof.
  rewrite sub_special_depunct, sub_spaces_collapse, strip_collapse.
  unfold squeeze, unwords, words, Py.split_ws. f_equal.
  apply fields_map.
  - apply depunct_char_space.
  - intros c H. apply depunct_char_word. apply negb_false_iff. exact H.
Qed.

(** ** The featuring pattern *)

Lemma lit_spec m : forall b r,
  Re.lit m (b, r) =
  match Py.drop_prefix m r with
  | Some r' => [(rev m ++ b, r')]
  | None => []
  end.
Proof.
  induction m as [|x m IH]; intros b r.
  - reflexivity.
  - cbn [Re.lit]. unfold Re.seq, Re.chr. cbn [fst snd Py.drop_prefix].
    destruct r as [|y r']; [reflexivity|].
    destruct (Py.eqc x y) eqn:E; [|reflexivity].
    apply eqc_eq in E. subst y. cbn [flat_map]. rewrite app_nil_r, IH.
    destruct (Py.drop_prefix m r'); [|reflexivity].
    cbn [rev]. rewrite <- app_assoc. reflexivity.
Qed.

Lemma drop_prefix_app m n : forall r,
  Py.drop_prefix (m ++ n) r =
  match Py.drop_prefix m r with
  | Some r1 => Py.drop_prefix n r1
  | None => None
  end.
Proof.
  induction m as [|x m IH]; intros r; simpl.
  - destruct n; reflexivity.
  - destruct r as [|y r']; [reflexivity|].
    destruct (Py.eqc x y); [apply IH | reflexivity].
Qed.

Lemma drop_prefix_single_line m : forall r r',
  Py.drop_prefix m r = Some r' -> single_line r = true -> single_line r' = true.
Proof.
  induction m as [|x m IH]; intros r r' H Hs; simpl in H.
  - destruct r; injection H as <-; exact Hs.
  - destruct r as [|y r0]; [discriminate|].
    destruct (Py.eqc x y); [|discriminate].
    simpl in Hs. apply andb_true_iff in Hs. eapply IH; [exact H | tauto].
Qed.

(** On a single line [.*$] runs to the end of the text. *)
Lemma dot_star_eol r : forall b,
  single_line r = true ->
  Re.seq (Re.star Re.dot) Re.eol (b, r) = [(rev r ++ b, [])].
Proof.
  unfold Re.seq, Re.star. cbn [fst snd].
  induction r as [|c t IH]; intros b Hs.
  - reflexivity.
  - simpl in Hs. apply andb_true_iff in Hs. destruct Hs as [Hc Ht].
    cbn [Re.star_from]. rewrite Hc. rewrite flat_map_app, IH by exact Ht.
    cbn [flat_map rev]. rewrite <- app_assoc.
    unfold Re.eol. cbn [snd]. unfold Re.dot in Hc. apply negb_true_iff in Hc.
    destruct t; [rewrite Hc|]; reflexivity.
Qed.

Lemma feat_tail_lit m b r :
  single_line r = true ->
  exists b', flat_map re_feat_tail (Re.lit m (b, r)) =
             if try_marker m b r then [(b', [])] else [].
Proof.
  intros Hs. rewrite lit_spec. unfold try_marker.
  destruct (Py.drop_prefix m r) as [r'|] eqn:E.
  - cbn [flat_map]. rewrite app_nil_r.
    unfold re_feat_tail. unfold Re.seq at 1. unfold Re.wordb. cbn [fst snd].
    destruct (xorb _ _).
    + cbn [flat_map]. rewrite app_nil_r.
      rewrite dot_star_eol by (eapply drop_prefix_single_line; eauto).
      eauto.
    + exists []. reflexivity.
  - exists []. reflexivity.
Qed.

Lemma re_feat_unfold b r :
  re_feat (b, r) =
  if xorb (Py.starts_with Py.is_word b) (Py.starts_with Py.is_word r)
  then flat_map re_feat_tail (Re.lit (py "feat") (b, r))
       ++ flat_map re_feat_tail (Re.lit (py "featuring") (b, r))
       ++ flat_map re_feat_tail (Re.lit (py "ft") (b, r))
       ++ flat_map re_feat_tail (Re.lit (py "feat.") (b, r))
       ++ flat_map re_feat_tail (Re.lit (py "featuring.") (b, r))
  else [].
Proof.
  unfold re_feat. fold re_feat_tail.
  unfold Re.seq at 1. unfold Re.wordb. cbn [fst snd].
  destruct (xorb _ _); [|reflexivity].
  cbn [flat_map]. rewrite app_nil_r.
  unfold Re.seq at 1. unfold Re.alt.
  rewrite !flat_map_app. reflexivity.
Qed.

Lemma word_at_drop_prefix m : forall r,
  forallb Py.is_word m = true ->
  match Py.drop_prefix m r with
  | Some r' => negb (Py.starts_with Py.is_word r')
  | None => false
  end = Py.eqs (word_at r) m.
Proof.
  induction m as [|x m IH]; intros r Hm.
  - destruct r as [|y r]; simpl; [reflexivity|]. destruct (Py.is_word y); reflexivity.
  - simpl in Hm. apply andb_true_iff in Hm. destruct Hm as [Hx Hm].
    destruct r as [|y r]; [reflexivity|]. simpl.
    destruct (Py.eqc x y) eqn:E.
    + apply eqc_eq in E. subst y. rewrite Hx. simpl. rewrite eqc_refl. simpl.
      apply IH. exact Hm.
    + destruct (Py.is_word y); [|reflexivity]. simpl.
      assert (Py.eqc y x = false) as ->; [|reflexivity].
      destruct (Py.eqc y x) eqn:E'; [|reflexivity].
      apply eqc_eq in E'. subst. rewrite eqc_refl in E. discriminate.
Qed.

Lemma try_marker_word m b r :
  m <> [] -> forallb Py.is_word m = true ->
  try_marker m b r = Py.eqs (word_at r) m.
Proof.
  intros Hne Hm. rewrite <- (word_at_drop_prefix m r Hm). unfold try_marker.
  destruct (Py.drop_prefix m r); [|reflexivity].
  assert (Py.starts_with Py.is_word (rev m ++ b) = true) as ->; [|reflexivity].
  destruct (rev m) as [|z zs] eqn:Er.
  - apply (f_equal (@rev _)) in Er. rewrite rev_involutive in Er. contradiction.
  - simpl. rewrite forallb_forall in Hm. apply Hm.
    apply in_rev. rewrite Er. left. reflexivity.
Qed.

(** The alternatives with a trailing period add no match of their own. *)
Lemma try_marker_period m b r :
  m <> [] -> forallb Py.is_word m = true ->
  try_marker (m ++ py ".") b r = true -> try_marker m b r = true.
Proof.
  intros Hne Hm H. rewrite try_marker_word by assumption.
  rewrite <- (word_at_drop_prefix m r Hm).
  unfold try_marker in H. rewrite drop_prefix_app in H.
  destruct (Py.drop_prefix m r) as [r1|]; [|discriminate].
  change (py ".") with ["."%char] in H.
  destruct r1 as [|y r1]; cbn [Py.drop_prefix] in H; [discriminate|].
  destruct (Py.eqc "."%char y) eqn:E; [|discriminate].
  apply eqc_eq in E. subst y. reflexivity.
Qed.

Lemma try_marker_nonword m b r :
  Py.starts_with Py.is_word m = true ->
  Py.starts_with Py.is_word r = false ->
  try_marker m b r = false.
Proof.
  intros Hm Hr. unfold try_marker.
  destruct m as [|x m]; [discriminate|]. simpl in Hm.
  destruct r as [|y r]; [reflexivity|]. simpl in *.
  destruct (Py.eqc x y) eqn:E; [|reflexivity].
  apply eqc_eq in E. congruence.
Qed.

(** Where the featuring pattern matches on a single line, and that its
    first match there runs to the end of the text. *)
Lemma re_feat_at b r :
  single_line r = true ->
  if negb (Py.starts_with Py.is_word b) && is_marker (word_at r)
  then exists b' rest, re_feat (b, r) = (b', []) :: rest
  else re_feat (b, r) = [].
Proof.
  intros Hs. rewrite re_feat_unfold.
  destruct (feat_tail_lit (py "feat") b r Hs) as [b1 ->].
  destruct (feat_tail_lit (py "featuring") b r Hs) as [b2 ->].
  destruct (feat_tail_lit (py "ft") b r Hs) as [b3 ->].
  destruct (feat_tail_lit (py "feat.") b r Hs) as [b4 ->].
  destruct (feat_tail_lit (py "featuring.") b r Hs) as [b5 ->].
  destruct (Py.starts_with Py.is_word r) eqn:Hr.
  - pose proof (try_marker_period (py "feat") b r ltac:(discriminate) eq_refl) as P1.
    pose proof (try_marker_period (py "featuring") b r ltac:(discriminate) eq_refl) as P2.
    change (py "feat" ++ py ".") with (py "feat.") in P1.
    change (py "featuring" ++ py ".") with (py "featuring.") in P2.
    unfold is_marker, markers. cbn [existsb].
    rewrite <- (try_marker_word (py "feat") b r) by (discriminate || reflexivity).
    rewrite <- (try_marker_word (py "featuring") b r) by (discriminate || reflexivity).
    rewrite <- (try_marker_word (py "ft") b r) by (discriminate || reflexivity).
    destruct (Py.starts_with Py.is_word b); cbn [negb xorb andb].
    + reflexivity.
    + destruct (try_marker (py "feat") b r), (try_marker (py "featuring") b r),
        (try_marker (py "ft") b r), (try_marker (py "feat.") b r),
        (try_marker (py "featuring.") b r);
        cbn [orb app]; eauto; try (specialize (P1 eq_refl)); try (specialize (P2 eq_refl));
        discriminate.
  - assert (word_at r = []) as ->.
    { destruct r as [|y r]; [reflexivity|]. simpl in *. rewrite Hr. reflexivity. }
    rewrite !try_marker_nonword by (exact Hr || reflexivity).
    rewrite andb_false_r. destruct (xorb _ _); reflexivity.
Qed.

(** On a single line, [re.sub] with the featuring pattern cuts the text
    at the first featuring-marker word. *)
Lemma sub_feat_truncate r : forall b,
  single_line r = true ->
  Re.sub_from re_feat [] 0 b r = truncate_at_marker (Py.starts_with Py.is_word b) r.
Proof.
  induction r as [|c t IH]; intros b Hs.
  - simpl. destruct (re_feat (b, [])); reflexivity.
  - pose proof (re_feat_at b (c :: t) Hs) as Hat.
    cbn [Re.sub_from truncate_at_marker].
    destruct (negb (Py.starts_with Py.is_word b) && is_marker (word_at (c :: t))).
    + destruct Hat as (b' & rest & ->).
      replace (length (c :: t) - length (@nil ascii)) with (S (length t)) by (simpl; lia).
      rewrite sub_from_skip by lia. rewrite skipn_all. simpl.
      destruct (re_feat _); reflexivity.
    + rewrite Hat. f_equal. simpl in Hs. apply andb_true_iff in Hs.
      rewrite IH by tauto. reflexivity.
Qed.

Lemma single_line_lower s : single_line (Py.lower s) = single_line s.
Proof.
  unfold single_line, Py.lower in *.
  induction s as [|c t IH]; cbn [forallb map]; [reflexivity|].
  rewrite IH. unfold Re.dot. rewrite lower_char_newline. reflexivity.
Qed.

Lemma forallb_pointwise (f g : ascii -> bool) l :
  (forall c, f c = g c) -> forallb f l = forallb g l.
Proof.
  intros H. induction l as [|c l IH]; simpl; [reflexivity|]. rewrite H, IH. reflexivity.
Qed.

Lemma fields_all sep s :
  Forall (fun w => w <> [] /\ forallb (fun c => negb (sep c)) w = true) (Py.fields sep s).
Proof.
  induction s as [|c t IH]; simpl; [constructor|].
  destruct (sep c) eqn:E; [exact IH|].
  destruct (Py.starts_with _ t).
  - destruct (Py.fields sep t) as [|w ws]; simpl.
    + constructor; [|constructor]. split; [discriminate|]. simpl. rewrite E. reflexivity.
    + inversion IH as [|? ? [H1 H2] H3]; subst. constructor; [|assumption].
      split; [discriminate|]. simpl. rewrite E, H2. reflexivity.
  - constructor; [|assumption]. split; [discriminate|]. simpl. rewrite E. reflexivity.
Qed.

Lemma words_tokens s : Forall token (words s).
Proof.
  unfold words. eapply List.Forall_impl; [|apply fields_all].
  intros w [H1 H2]. split; [exact H1|].
  rewrite <- H2. apply forallb_pointwise. intros c. rewrite negb_involutive. reflexivity.
Qed.

Lemma fields_app_word sep w : forall v,
  w <> [] -> forallb (fun c => negb (sep c)) w = true ->
  Py.starts_with (fun c => negb (sep c)) v = false ->
  Py.fields sep (w ++ v) = w :: Py.fields sep v.
Proof.
  induction w as [|c w IH]; intros v Hne Hw Hv; [congruence|].
  simpl in Hw. apply andb_true_iff in Hw. destruct Hw as [Hc Hw].
  apply negb_true_iff in Hc. simpl. rewrite Hc.
  destruct w as [|x w].
  - simpl. rewrite Hv. reflexivity.
  - rewrite IH by (assumption || discriminate).
    simpl in Hw. apply andb_true_iff in Hw. simpl. rewrite (proj1 Hw). reflexivity.
Qed.

Lemma fields_sep_cons sep c t :
  sep c = true -> Py.fields sep (c :: t) = Py.fields sep t.
Proof. intros H. simpl. rewrite H. reflexivity. Qed.

Lemma fields_join sep ws :
  sep " "%char = true ->
  Forall (fun w => w <> [] /\ forallb (fun c => negb (sep c)) w = true) ws ->
  Py.fields sep (Py.join (py " ") ws) = ws.
Proof.
  intros Hsp. induction 1 as [|w ws [H1 H2] Hws IH]; [reflexivity|].
  destruct ws as [|w' ws].
  - simpl. rewrite <- (app_nil_r w) at 1. rewrite fields_app_word by (assumption || reflexivity).
    reflexivity.
  - rewrite join_cons by discriminate.
    rewrite fields_app_word; try assumption.
    + change (py " " ++ Py.join (py " ") (w' :: ws)) with (" "%char :: Py.join (py " ") (w' :: ws)).
      rewrite fields_sep_cons by exact Hsp. rewrite IH. reflexivity.
    + simpl. rewrite Hsp. reflexivity.
Qed.

Lemma words_unwords ws : Forall token ws -> words (unwords ws) = ws.
Proof.
  intros H. unfold words, unwords. apply fields_join; [reflexivity|].
  eapply List.Forall_impl; [|exact H]. intros w [H1 H2]. split; [exact H1|].
  rewrite <- H2. apply forallb_pointwise. intros c. rewrite negb_involutive. reflexivity.
Qed.

Lemma split_ws_unwords ws : Forall token ws -> Py.split_ws (unwords ws) = ws.
Proof.
  intros H. unfold Py.split_ws, unwords. apply fields_join; [reflexivity|].
  eapply List.Forall_impl; [|exact H]. intros w [H1 H2]. split; [exact H1|].
  rewrite forallb_forall in *. intros c Hc. specialize (H2 c Hc).
  destruct (Py.is_space c) eqn:E; [|reflexivity].
  apply space_not_word in E. congruence.
Qed.

Lemma word_at_app w : forall v,
  forallb Py.is_word w = true -> Py.starts_with Py.is_word v = false ->
  word_at (w ++ v) = w.
Proof.
  induction w as [|c w IH]; intros v Hw Hv; simpl.
  - destruct v as [|x v]; [reflexivity|]. simpl in *. rewrite Hv. reflexivity.
  - simpl in Hw. apply andb_true_iff in Hw. destruct Hw as [-> Hw].
    rewrite IH by assumption. reflexivity.
Qed.

Lemma lstrip_word_app w : forall v,
  forallb Py.is_word w = true -> Py.starts_with Py.is_word v = false ->
  Py.lstrip_by Py.is_word (w ++ v) = v.
Proof.
  induction w as [|c w IH]; intros v Hw Hv; simpl.
  - destruct v as [|x v]; [reflexivity|]. simpl in *. rewrite Hv. reflexivity.
  - simpl in Hw. apply andb_true_iff in Hw. destruct Hw as [-> Hw].
    apply IH; assumption.
Qed.

Lemma word_at_lstrip s : s = word_at s ++ Py.lstrip_by Py.is_word s.
Proof.
  induction s as [|c t IH]; simpl; [reflexivity|].
  destruct (Py.is_word c); [simpl; f_equal; exact IH | reflexivity].
Qed.

Lemma word_at_all_word s : forallb Py.is_word (word_at s) = true.
Proof.
  induction s as [|c t IH]; simpl; [reflexivity|].
  destruct (Py.is_word c) eqn:E; [simpl; rewrite E; exact IH | reflexivity].
Qed.

Lemma words_nonword c t : Py.is_word c = false -> words (c :: t) = words t.
Proof. intros H. unfold words. apply fields_sep_cons. rewrite H. reflexivity. Qed.

(** A text that starts with a word character splits into its first word
    and the words of the rest. *)
Lemma words_word c t :
  Py.is_word c = true ->
  words (c :: t) = word_at (c :: t) :: words (Py.lstrip_by Py.is_word (c :: t)).
Proof.
  intros Hc. rewrite (word_at_lstrip (c :: t)) at 1.
  unfold words. apply fields_app_word.
  - simpl. rewrite Hc. discriminate.
  - rewrite <- (word_at_all_word (c :: t)). apply forallb_pointwise.
    intros x. apply negb_involutive.
  - pose proof (lstrip_by_starts Py.is_word (c :: t)) as H.
    destruct (Py.lstrip_by Py.is_word (c :: t)) as [|x u]; [reflexivity|].
    simpl in *. rewrite H. reflexivity.
Qed.

Lemma truncate_in_word s :
  truncate_at_marker true s =
  word_at s ++ truncate_at_marker false (Py.lstrip_by Py.is_word s).
Proof.
  induction s as [|c t IH]; [reflexivity|].
  cbn [truncate_at_marker negb andb word_at Py.lstrip_by].
  destruct (Py.is_word c) eqn:Hc.
  - rewrite IH. reflexivity.
  - cbn [truncate_at_marker negb andb word_at app]. rewrite Hc. reflexivity.
Qed.

Lemma truncate_word_start c t :
  Py.is_word c = true -> is_marker (word_at (c :: t)) = false ->
  truncate_at_marker false (c :: t) =
  word_at (c :: t) ++ truncate_at_marker false (Py.lstrip_by Py.is_word (c :: t)).
Proof.
  intros Hc Hm. cbn [truncate_at_marker negb andb]. rewrite Hm, Hc.
  rewrite truncate_in_word. simpl. rewrite Hc. reflexivity.
Qed.

Lemma truncate_starts f s :
  Py.starts_with Py.is_word s = false ->
  Py.starts_with Py.is_word (truncate_at_marker f s) = false.
Proof.
  destruct s as [|c t]; [reflexivity|]. cbn [truncate_at_marker].
  intros H. destruct (negb f && _); [reflexivity | exact H].
Qed.

(** Cutting a text at the first marker word keeps the words before it. *)
Lemma words_truncate_len n : forall s,
  length s <= n ->
  words (truncate_at_marker false s) = before_marker (words s).
Proof.
  induction n as [|n IH]; intros s Hn.
  - destruct s; [reflexivity | simpl in Hn; lia].
  - destruct s as [|c t]; [reflexivity|].
    destruct (Py.is_word c) eqn:Hc.
    + rewrite (words_word c t Hc). cbn [before_marker].
      destruct (is_marker (word_at (c :: t))) eqn:Hm.
      * cbn [truncate_at_marker negb andb]. rewrite Hm. reflexivity.
      * rewrite truncate_word_start by assumption.
        unfold words at 1. rewrite fields_app_word.
        -- f_equal. apply IH.
           pose proof (lstrip_by_length Py.is_word t). simpl in *. rewrite Hc. lia.
        -- simpl. rewrite Hc. discriminate.
        -- rewrite <- (word_at_all_word (c :: t)). apply forallb_pointwise.
           intros x. apply negb_involutive.
        -- pose proof (truncate_starts false _ (lstrip_by_starts Py.is_word (c :: t))) as H.
           destruct (truncate_at_marker false _) as [|x u]; [reflexivity|].
           simpl in *. rewrite H. reflexivity.
    + assert (Hw : word_at (c :: t) = []) by (simpl; rewrite Hc; reflexivity).
      cbn [truncate_at_marker negb andb]. rewrite Hw. cbn [is_marker markers existsb Py.eqs py list_ascii_of_string orb].
      rewrite Hc. rewrite !words_nonword by exact Hc.
      apply IH. simpl in Hn. lia.
Qed.

Lemma words_truncate s :
  words (truncate_at_marker false s) = before_marker (words s).
Proof. apply (words_truncate_len (length s)). lia. Qed.

Lemma token_word_at w v :
  token w -> Py.starts_with Py.is_word v = false ->
  word_at (w ++ v) = w /\ Py.lstrip_by Py.is_word (w ++ v) = v.
Proof.
  intros [_ Hw] Hv. split; [apply word_at_app | apply lstrip_word_app]; assumption.
Qed.

Lemma truncate_token_app w v :
  token w -> Py.starts_with Py.is_word v = false ->
  truncate_at_marker false (w ++ v) =
  if is_marker w then [] else w ++ truncate_at_marker false v.
Proof.
  intros Hw Hv. destruct (token_word_at w v Hw Hv) as [E1 E2].
  destruct Hw as [Hne Hw]. destruct w as [|c w0]; [congruence|].
  simpl in Hw. apply andb_true_iff in Hw. destruct Hw as [Hc Hw].
  change ((c :: w0) ++ v) with (c :: (w0 ++ v)) in *.
  destruct (is_marker (c :: w0)) eqn:Hm.
  - cbn [truncate_at_marker negb andb]. rewrite E1, Hm. reflexivity.
  - rewrite truncate_word_start by (rewrite ?E1; assumption).
    rewrite E1, E2. reflexivity.
Qed.

Lemma truncate_space_cons u :
  truncate_at_marker false (" "%char :: u) = " "%char :: truncate_at_marker false u.
Proof. reflexivity. Qed.

(** Cutting a squeezed text: the words before the marker stay, followed
    by the space that stood before the marker. *)
Lemma truncate_unwords ws :
  Forall token ws ->
  truncate_at_marker false (unwords ws) =
  if existsb is_marker ws
  then match before_marker ws with
       | [] => []
       | _ :: _ => unwords (before_marker ws) ++ py " "
       end
  else unwords ws.
Proof.
  induction 1 as [|w ws Hw Hws IH]; [reflexivity|].
  cbn [existsb before_marker].
  destruct ws as [|w' ws'].
  - unfold unwords. cbn [Py.join]. rewrite <- (app_nil_r w) at 1.
    rewrite truncate_token_app by (assumption || reflexivity).
    destruct (is_marker w); [reflexivity|]. simpl. apply app_nil_r.
  - unfold unwords in *. rewrite join_cons by discriminate.
    change (py " " ++ Py.join (py " ") (w' :: ws'))
      with (" "%char :: Py.join (py " ") (w' :: ws')).
    rewrite truncate_token_app by (assumption || reflexivity).
    destruct (is_marker w); [reflexivity|].
    rewrite truncate_space_cons, IH. cbn [orb].
    destruct (existsb is_marker (w' :: ws')).
    + destruct (before_marker (w' :: ws')) as [|x bm]; [reflexivity|].
      rewrite (join_cons _ w (x :: bm)) by discriminate.
      rewrite <- !app_assoc. reflexivity.
    + reflexivity.
Qed.

Lemma token_single_line w : token w -> single_line w = true.
Proof.
  intros [_ Hw]. unfold single_line. rewrite forallb_forall in *.
  intros c Hc. specialize (Hw c Hc). unfold Re.dot.
  destruct (Py.eqc Py.newline c) eqn:E; [|reflexivity].
  apply newline_is_space, space_not_word in E. congruence.
Qed.

Lemma single_line_app u v :
  single_line (u ++ v) = single_line u && single_line v.
Proof. unfold single_line. apply forallb_app. Qed.

Lemma single_line_unwords ws : Forall token ws -> single_line (unwords ws) = true.
Proof.
  induction 1 as [|w ws Hw Hws IH]; [reflexivity|].
  destruct ws as [|w' ws'].
  - apply token_single_line. exact Hw.
  - unfold unwords in *. rewrite join_cons by discriminate.
    rewrite !single_line_app, IH, (token_single_line w Hw). reflexivity.
Qed.

Lemma before_marker_tokens ws : Forall token ws -> Forall token (before_marker ws).
Proof.
  induction 1 as [|w ws Hw Hws IH]; simpl; [constructor|].
  destruct (is_marker w); constructor; assumption.
Qed.

Lemma before_marker_idem ws : before_marker (before_marker ws) = before_marker ws.
Proof.
  induction ws as [|w ws IH]; simpl; [reflexivity|].
  destruct (is_marker w) eqn:E; [reflexivity|]. simpl. rewrite E, IH. reflexivity.
Qed.

Lemma before_marker_none ws : existsb is_marker (before_marker ws) = false.
Proof.
  induction ws as [|w ws IH]; simpl; [reflexivity|].
  destruct (is_marker w) eqn:E; [reflexivity|]. simpl. rewrite E, IH. reflexivity.
Qed.

(** ** The two normalizers in terms of words *)

Lemma clean_for_search_truncate x :
  single_line x = true ->
  clean_for_search x = squeeze (truncate_at_marker false (Py.lower x)).
Proof.
  intros Hx. unfold clean_for_search. rewrite depunct_collapse_strip.
  unfold Re.sub. rewrite sub_feat_truncate by (rewrite single_line_lower; exact Hx).
  reflexivity.
Qed.

Lemma clean_for_search_words x :
  single_line x = true ->
  clean_for_search x = unwords (before_marker (words (Py.lower x))).
Proof.
  intros Hx. rewrite clean_for_search_truncate by exact Hx.
  unfold squeeze. rewrite words_truncate. reflexivity.
Qed.

Lemma normalize_title_truncate x :
  normalize_title x = truncate_at_marker false (squeeze (Py.lower x)).
Proof.
  unfold normalize_title. rewrite depunct_collapse_strip.
  unfold Re.sub. rewrite sub_feat_truncate; [reflexivity|].
  apply single_line_unwords, words_tokens.
Qed.

(** ** Lowercasing and words *)

Lemma lower_idem s : Py.lower (Py.lower s) = Py.lower s.
Proof.
  unfold Py.lower. rewrite map_map. apply map_ext. apply lower_char_idem.
Qed.

Lemma lower_app u v : Py.lower (u ++ v) = Py.lower u ++ Py.lower v.
Proof. apply map_app. Qed.

Lemma fields_lower s :
  words (Py.lower s) = map Py.lower (words s).
Proof.
  unfold words, Py.lower.
  induction s as [|c t IH]; [reflexivity|].
  cbn [map Py.fields]. rewrite lower_char_word, IH.
  destruct (negb (Py.is_word c)); [reflexivity|].
  replace (Py.starts_with (fun x => negb (negb (Py.is_word x))) (map Py.lower_char t))
    with (Py.starts_with (fun x => negb (negb (Py.is_word x))) t).
  - destruct (Py.starts_with _ t); [|reflexivity].
    destruct (Py.fields _ t); reflexivity.
  - destruct t; simpl; [reflexivity | rewrite lower_char_word; reflexivity].
Qed.

Lemma lower_unwords ws : Py.lower (unwords ws) = unwords (map Py.lower ws).
Proof.
  induction ws as [|w ws IH]; [reflexivity|].
  destruct ws as [|w' ws'].
  - reflexivity.
  - unfold unwords in *. cbn [map]. rewrite !join_cons by discriminate.
    rewrite !lower_app. cbn [map] in IH. rewrite IH. reflexivity.
Qed.

Lemma words_lower_lowered s : Forall lowered (words (Py.lower s)).
Proof.
  rewrite fields_lower. apply List.Forall_forall. intros w Hw.
  apply in_map_iff in Hw. destruct Hw as (w0 & <- & _). apply lower_idem.
Qed.

Lemma before_marker_Forall (P : str -> Prop) ws :
  Forall P ws -> Forall P (before_marker ws).
Proof.
  induction 1 as [|w ws Hw Hws IH]; simpl; [constructor|].
  destruct (is_marker w); constructor; assumption.
Qed.

Lemma map_lower_lowered ws : Forall lowered ws -> map Py.lower ws = ws.
Proof.
  induction 1 as [|w ws Hw Hws IH]; simpl; [reflexivity|]. rewrite Hw, IH. reflexivity.
Qed.

Lemma before_marker_no_marker ws :
  existsb is_marker ws = false -> before_marker ws = ws.
Proof.
  induction ws as [|w ws IH]; simpl; [reflexivity|].
  intros H. apply orb_false_iff in H. destruct H as [-> H]. rewrite IH by exact H.
  reflexivity.
Qed.

(** ** Trimming squeezed text *)

Lemma lstrip_by_id p u : Py.starts_with p u = false -> Py.lstrip_by p u = u.
Proof. destruct u as [|c t]; simpl; [reflexivity|]. intros ->. reflexivity. Qed.

Lemma rstrip_by_idem p u : Py.rstrip_by p (Py.rstrip_by p u) = Py.rstrip_by p u.
Proof.
  unfold Py.rstrip_by. rewrite rev_involutive.
  rewrite (lstrip_by_id p (Py.lstrip_by p (rev u))); [reflexivity|].
  apply lstrip_by_starts.
Qed.

Lemma rstrip_by_starts p u :
  Py.starts_with p u = false -> Py.starts_with p (Py.rstrip_by p u) = false.
Proof.
  destruct u as [|c t]; [reflexivity|]. simpl. intros H.
  rewrite rstrip_by_cons_keep by exact H. exact H.
Qed.

Lemma strip_idem s : Py.strip (Py.strip s) = Py.strip s.
Proof.
  unfold Py.strip.
  rewrite (lstrip_by_id _ (Py.rstrip_by _ _)).
  - apply rstrip_by_idem.
  - apply rstrip_by_starts, lstrip_by_starts.
Qed.

Lemma rstrip_by_app_last p u c :
  p c = true -> Py.rstrip_by p (u ++ [c]) = Py.rstrip_by p u.
Proof.
  intros H. unfold Py.rstrip_by. rewrite rev_app_distr. simpl. rewrite H. reflexivity.
Qed.

Lemma strip_app_space u :
  Py.starts_with (fun c => negb (Py.is_space c)) u = true ->
  Py.strip (u ++ py " ") = Py.strip u.
Proof.
  intros H. destruct u as [|c t]; [discriminate|]. simpl in H.
  apply negb_true_iff in H. unfold Py.strip.
  change ((c :: t) ++ py " ") with (c :: (t ++ py " ")).
  rewrite !lstrip_by_id by (simpl; exact H).
  change (c :: (t ++ py " ")) with ((c :: t) ++ [" "%char]).
  apply rstrip_by_app_last. reflexivity.
Qed.

Lemma strip_collapse_depunct s :
  Py.strip (collapse (map depunct_char s)) = squeeze s.
Proof.
  rewrite <- depunct_collapse_strip, sub_special_depunct, sub_spaces_collapse.
  reflexivity.
Qed.

Lemma strip_squeeze s : Py.strip (squeeze s) = squeeze s.
Proof. rewrite <- strip_collapse_depunct. apply strip_idem. Qed.

Lemma strip_unwords ws : Forall token ws -> Py.strip (unwords ws) = unwords ws.
Proof.
  intros H.
  assert (E : unwords ws = squeeze (unwords ws))
    by (unfold squeeze; rewrite words_unwords by exact H; reflexivity).
  rewrite E. apply strip_squeeze.
Qed.

Lemma unwords_starts w ws :
  token w -> Py.starts_with (fun c => negb (Py.is_space c)) (unwords (w :: ws)) = true.
Proof.
  intros [Hne Hw]. destruct w as [|c w0]; [congruence|].
  simpl in Hw. apply andb_true_iff in Hw. destruct Hw as [Hc _].
  assert (Py.is_space c = false).
  { destruct (Py.is_space c) eqn:E; [|reflexivity]. apply space_not_word in E. congruence. }
  unfold unwords. destruct ws; simpl; rewrite H; reflexivity.
Qed.

(** [normalize_title], once trimmed, in terms of words. *)
Lemma strip_normalize_title_words x :
  Py.strip (normalize_title x) = unwords (before_marker (words (Py.lower x))).
Proof.
  rewrite normalize_title_truncate. unfold squeeze.
  pose proof (words_tokens (Py.lower x)) as Ht.
  rewrite truncate_unwords by exact Ht.
  destruct (existsb is_marker (words (Py.lower x))) eqn:E.
  - pose proof (before_marker_tokens _ Ht) as Hb.
    destruct (before_marker (words (Py.lower x))) as [|w bm]; [reflexivity|].
    rewrite strip_app_space by (apply unwords_starts; inversion Hb; assumption).
    apply strip_unwords. exact Hb.
  - rewrite before_marker_no_marker by exact E. apply strip_unwords. exact Ht.
Qed.

Lemma NormalizedKey_words x :
  NormalizedKey x = unwords (before_marker (words (Py.lower x))).
Proof.
  unfold NormalizedKey. rewrite strip_collapse_depunct.
  unfold squeeze. rewrite words_truncate. reflexivity.
Qed.

(** ** Trimming does not change the words *)

Lemma fields_lstrip_by sep p s :
  (forall c, p c = true -> sep c = true) ->
  Py.fields sep (Py.lstrip_by p s) = Py.fields sep s.
Proof.
  intros Hp. induction s as [|c t IH]; [reflexivity|].
  cbn [Py.lstrip_by]. destruct (p c) eqn:E; [|reflexivity].
  rewrite IH. symmetry. apply fields_sep_cons. apply Hp. exact E.
Qed.

Lemma rstrip_by_head p t y r :
  Py.rstrip_by p t = y :: r -> exists t', t = y :: t'.
Proof.
  destruct t as [|x t']; [discriminate|].
  rewrite rstrip_by_cons.
  destruct (Py.rstrip_by p t'); [destruct (p x)|]; intros H; try discriminate;
    injection H as -> _; eauto.
Qed.

Lemma fields_rstrip_by sep p s :
  (forall c, p c = true -> sep c = true) ->
  Py.fields sep (Py.rstrip_by p s) = Py.fields sep s.
Proof.
  intros Hp. induction s as [|c t IH]; [reflexivity|].
  rewrite rstrip_by_cons.
  destruct (Py.rstrip_by p t) as [|y r] eqn:Er.
  - simpl in IH.
    assert (Hst : Py.starts_with (fun x => negb (sep x)) t = false).
    { destruct (Py.starts_with _ t) eqn:E; [|reflexivity].
      apply fields_starts in E. congruence. }
    cbn [Py.fields]. rewrite Hst, <- IH.
    destruct (p c) eqn:Hc.
    + rewrite (Hp c Hc). reflexivity.
    + simpl. destruct (sep c); reflexivity.
  - destruct (rstrip_by_head p t y r Er) as [t' ->].
    cbn [Py.fields Py.starts_with] in *. rewrite <- IH. reflexivity.
Qed.

Lemma words_strip s : words (Py.strip s) = words s.
Proof.
  assert (H : forall c, Py.is_space c = true -> negb (Py.is_word c) = true)
    by (intros c Hc; rewrite (space_not_word c Hc); reflexivity).
  unfold words, Py.strip. rewrite fields_rstrip_by, fields_lstrip_by by exact H.
  reflexivity.
Qed.

(** The key of a line does not depend on surrounding whitespace. *)
Lemma normalize_title_strip line :
  normalize_title (Py.strip line) = normalize_title line.
Proof.
  rewrite !normalize_title_truncate. unfold squeeze.
  rewrite !fields_lower, words_strip. reflexivity.
Qed.

(** ** Claims about the two normalizers *)

(** A second application of [normalize_title] only trims the result of
    the first. *)
Lemma normalize_title_twice x :
  normalize_title (normalize_title x) = Py.strip (normalize_title x).
Proof.
  rewrite strip_normalize_title_words.
  set (bm := before_marker (words (Py.lower x))).
  assert (Ht : Forall token bm) by apply before_marker_tokens, words_tokens.
  assert (Hl : Forall lowered bm) by apply before_marker_Forall, words_lower_lowered.
  assert (Hw : words (normalize_title x) = bm).
  { rewrite <- words_strip, strip_normalize_title_words. apply words_unwords. exact Ht. }
  rewrite (normalize_title_truncate (normalize_title x)). unfold squeeze.
  rewrite fields_lower, Hw, (map_lower_lowered bm Hl).
  rewrite truncate_unwords by exact Ht.
  unfold bm. rewrite before_marker_none. reflexivity.
Qed.

(** C1.  [normalize_title] is not idempotent: it trims before it cuts the
    featuring suffix, so a title with a marker keeps the space that stood
    before the marker, and a second application, which only trims,
    removes it. *)
Theorem normalize_title_twice_differs :
  (forall x, normalize_title (normalize_title x) = Py.strip (normalize_title x)) /\
  normalize_title (py "Song feat. Artist") = py "song " /\
  normalize_title (normalize_title (py "Song feat. Artist")) = py "song".
Proof.
  split; [exact normalize_title_twice|]. split; vm_compute; reflexivity.
Qed.

(** The two normalizers disagree on a title with a featuring marker. *)
Lemma normalizers_disagree :
  normalize_title (py "a ft b") <> clean_for_search (py "a ft b").
Proof. vm_compute. discriminate. Qed.

(** On a text without line feed, [clean_for_search] is the
    NormalizedKey pipeline (lowercase, cut from the featuring marker,
    replace what is neither word character nor whitespace by a space,
    collapse whitespace, trim); [normalize_title] runs the steps in another
    order and yields the same key once trimmed, and exactly the same key
    when the text has no featuring marker word. *)
Theorem normalizers_on_single_lines x :
  single_line x = true ->
  clean_for_search x = NormalizedKey x /\
  Py.strip (normalize_title x) = NormalizedKey x /\
  (existsb is_marker (words (Py.lower x)) = false ->
   normalize_title x = NormalizedKey x).
Proof.
  intros Hx. rewrite NormalizedKey_words. repeat split.
  - apply clean_for_search_words. exact Hx.
  - apply strip_normalize_title_words.
  - intros Hm. rewrite normalize_title_truncate. unfold squeeze.
    rewrite truncate_unwords by apply words_tokens.
    rewrite Hm, before_marker_no_marker by exact Hm. reflexivity.
Qed.

Lemma normalizers_on_single_lines_witness :
  single_line (py "Bohemian Rhapsody - Live!") = true /\
  clean_for_search (py "Bohemian Rhapsody - Live!")
  = NormalizedKey (py "Bohemian Rhapsody - Live!") /\
  Py.strip (normalize_title (py "Bohemian Rhapsody - Live!"))
  = NormalizedKey (py "Bohemian Rhapsody - Live!") /\
  normalize_title (py "Bohemian Rhapsody - Live!")
  = NormalizedKey (py "Bohemian Rhapsody - Live!").
Proof.
  split; [reflexivity|].
  destruct (normalizers_on_single_lines (py "Bohemian Rhapsody - Live!") eq_refl)
    as (H1 & H2 & H3).
  split; [exact H1 | split; [exact H2 | apply H3; reflexivity]].
Defined.

(** C2.  [normalize_title] is not the NormalizedKey pipeline that
    [clean_for_search] implements: it trims before it cuts the featuring
    suffix, so for a title with a marker it returns the key followed by
    the space that stood before the marker, where [clean_for_search]
    returns the key. *)
Theorem normalize_title_misses_key :
  normalize_title (py "Song feat. Artist") = py "song " /\
  clean_for_search (py "Song feat. Artist") = py "song" /\
  NormalizedKey (py "Song feat. Artist") = py "song" /\
  normalize_title (py "Song feat. Artist") <> clean_for_search (py "Song feat. Artist").
Proof.
  split; [vm_compute; reflexivity|].
  split; [vm_compute; reflexivity|].
  split; [vm_compute; reflexivity|].
  vm_compute. discriminate.
Qed.

(** C10, as stated, fails: [.] does not match a line feed, so a marker
    followed by a line break survives the first pass and is cut by the
    second. *)
Lemma clean_for_search_twice_differs :
  clean_for_search (clean_for_search (py "feat x" ++ Py.newline :: py "y"))
  <> clean_for_search (py "feat x" ++ Py.newline :: py "y").
Proof. vm_compute. discriminate. Qed.

(** C10, amended.  On a text without line feed [clean_for_search] is
    idempotent, and its output is a sequence of lowercase words, none of
    them a featuring marker, joined by single spaces. *)
Theorem clean_for_search_idempotent x :
  single_line x = true ->
  clean_for_search (clean_for_search x) = clean_for_search x /\
  exists ws, Forall token ws /\ Forall lowered ws /\
             existsb is_marker ws = false /\ clean_for_search x = unwords ws.
Proof.
  intros Hx. rewrite (clean_for_search_words x Hx).
  set (bm := before_marker (words (Py.lower x))).
  assert (Ht : Forall token bm) by apply before_marker_tokens, words_tokens.
  assert (Hl : Forall lowered bm) by apply before_marker_Forall, words_lower_lowered.
  split.
  - rewrite clean_for_search_words by (apply single_line_unwords; exact Ht).
    rewrite lower_unwords, (map_lower_lowered bm Hl), (words_unwords bm Ht).
    unfold bm. rewrite before_marker_idem. reflexivity.
  - exists bm. repeat split; try assumption. apply before_marker_none.
Qed.

Lemma clean_for_search_idempotent_witness :
  single_line (py "Song A (Feat. X)") = true /\
  clean_for_search (clean_for_search (py "Song A (Feat. X)"))
  = clean_for_search (py "Song A (Feat. X)") /\
  exists ws, Forall token ws /\ Forall lowered ws /\
             existsb is_marker ws = false /\
             clean_for_search (py "Song A (Feat. X)") = unwords ws.
Proof.
  split; [reflexivity|].
  apply (clean_for_search_idempotent (py "Song A (Feat. X)")). reflexivity.
Defined.

(** ** The placeholder-title pattern *)

Lemma star_from_in p : forall r b b' r',
  In (b', r') (Re.star_from p b r) ->
  exists run, r = run ++ r' /\ forallb p run = true.
Proof.
  induction r as [|c t IH]; intros b b' r' Hin; simpl in Hin.
  - destruct Hin as [E|[]]. injection E as _ <-. exists []. split; reflexivity.
  - destruct (p c) eqn:Hc.
    + apply in_app_or in Hin. destruct Hin as [Hin|[E|[]]].
      * destruct (IH _ _ _ Hin) as (run & -> & Hr).
        exists (c :: run). split; [reflexivity|]. simpl. rewrite Hc. exact Hr.
      * injection E as _ <-. exists []. split; reflexivity.
    + destruct Hin as [E|[]]. injection E as _ <-. exists []. split; reflexivity.
Qed.

Lemma plus_in p b r b' r' :
  In (b', r') (Re.plus p (b, r)) ->
  exists run, run <> [] /\ r = run ++ r' /\ forallb p run = true.
Proof.
  unfold Re.plus, Re.seq, Re.chr. cbn [fst snd].
  destruct r as [|c t]; [intros []|].
  destruct (p c) eqn:Hc; [|intros []].
  cbn [flat_map]. rewrite app_nil_r. unfold Re.star. cbn [fst snd].
  intros Hin. destruct (star_from_in _ _ _ _ _ Hin) as (run & -> & Hr).
  exists (c :: run). repeat split; [discriminate|]. simpl. rewrite Hc. exact Hr.
Qed.

Lemma eol_in k k' : In k' (Re.eol k) -> at_eol (snd k).
Proof.
  unfold Re.eol, at_eol. destruct (snd k) as [|c [|d t]]; intros Hin.
  - left. reflexivity.
  - destruct (Py.eqc Py.newline c) eqn:E; [|destruct Hin].
    apply eqc_eq in E. subst. right. reflexivity.
  - destruct Hin.
Qed.

Lemma drop_prefix_Some m : forall s r, Py.drop_prefix m s = Some r -> s = m ++ r.
Proof.
  induction m as [|x m IH]; intros s r H; simpl in H.
  - destruct s; injection H as <-; reflexivity.
  - destruct s as [|y s]; [discriminate|].
    destruct (Py.eqc x y) eqn:E; [|discriminate].
    apply eqc_eq in E. subst y. simpl. f_equal. apply IH. exact H.
Qed.

Lemma drop_prefix_app_same m r : Py.drop_prefix m (m ++ r) = Some r.
Proof.
  induction m as [|x m IH]; simpl.
  - destruct r; reflexivity.
  - rewrite eqc_refl. exact IH.
Qed.

(** What a text matched by [^track(?:\s+\d+)?$] looks like. *)
Lemma re_track_inv s :
  Re.matches re_track s = true ->
  exists r, s = py "track" ++ r /\
    (at_eol r \/
     exists sp dg tl, r = sp ++ dg ++ tl /\ sp <> [] /\ forallb Py.is_space sp = true /\
                      dg <> [] /\ forallb Py.is_digit dg = true /\ at_eol tl).
Proof.
  unfold Re.matches. destruct (re_track ([], s)) as [|k l] eqn:E; [discriminate|].
  intros _. assert (Hin : In k (re_track ([], s))) by (rewrite E; left; reflexivity).
  clear E. unfold re_track in Hin.
  unfold Re.seq at 1 in Hin. unfold Re.bol in Hin. cbn [fst flat_map] in Hin.
  rewrite app_nil_r in Hin.
  unfold Re.seq at 1 in Hin. rewrite lit_spec in Hin.
  destruct (Py.drop_prefix (py "track") s) as [r|] eqn:Ed; [|destruct Hin].
  apply drop_prefix_Some in Ed. exists r. split; [exact Ed|].
  cbn [flat_map] in Hin. rewrite app_nil_r in Hin.
  unfold Re.seq at 1 in Hin. apply in_flat_map in Hin.
  destruct Hin as ([b1 r1] & Hopt & Heol).
  apply eol_in in Heol. cbn [snd] in Heol.
  unfold Re.opt, Re.alt, Re.eps in Hopt. apply in_app_or in Hopt.
  destruct Hopt as [Hz|[Eq|[]]].
  - right. unfold Re.seq in Hz. apply in_flat_map in Hz.
    destruct Hz as ([b2 r2] & Hsp & Hdg).
    apply plus_in in Hsp. destruct Hsp as (sp & Hsp1 & -> & Hsp2).
    apply plus_in in Hdg. destruct Hdg as (dg & Hdg1 & -> & Hdg2).
    exists sp, dg, r1. repeat split; assumption.
  - injection Eq as _ <-. left. exact Heol.
Qed.

Lemma star_from_all p : forall r b,
  forallb p r = true -> exists b' l, Re.star_from p b r = (b', []) :: l.
Proof.
  intros r b H. destruct (star_from_hd p r b) as (b' & l & E).
  apply lstrip_by_nil_iff in H. rewrite H in E. eauto.
Qed.

Lemma seq_cons (r1 r2 : Re.re) k k1 l1 :
  r1 k = k1 :: l1 -> Re.seq r1 r2 k = r2 k1 ++ flat_map r2 l1.
Proof. intros H. unfold Re.seq. rewrite H. reflexivity. Qed.

Lemma plus_hd p c t b :
  p c = true -> exists b' l, Re.plus p (b, c :: t) = (b', Py.lstrip_by p t) :: l.
Proof.
  intros Hc. unfold Re.plus, Re.seq, Re.chr. cbn [fst snd]. rewrite Hc.
  cbn [flat_map]. rewrite app_nil_r. unfold Re.star. cbn [fst snd].
  apply star_from_hd.
Qed.

Lemma re_track_digits ds :
  ds <> [] -> forallb Py.is_digit ds = true ->
  Re.matches re_track (py "track " ++ ds) = true.
Proof.
  intros Hne Hd. destruct ds as [|d ds]; [congruence|].
  simpl in Hd. apply andb_true_iff in Hd. destruct Hd as [Hd Hds].
  assert (Hsp : Py.is_space d = false).
  { destruct (Py.is_space d) eqn:E; [|reflexivity].
    apply space_not_word in E. apply digit_is_word in Hd. congruence. }
  set (b0 := rev (py "track") ++ []).
  destruct (plus_hd Py.is_space " "%char (d :: ds) b0 eq_refl) as (b1 & l1 & E1).
  rewrite lstrip_by_id in E1 by (simpl; exact Hsp).
  destruct (plus_hd Py.is_digit d ds b1 Hd) as (b2 & l2 & E2).
  apply lstrip_by_nil_iff in Hds. rewrite Hds in E2.
  unfold Re.matches, re_track.
  rewrite (seq_cons Re.bol _ ([], py "track " ++ d :: ds) ([], py "track " ++ d :: ds) [])
    by reflexivity.
  rewrite (seq_cons (Re.lit (py "track")) _ _ (b0, " "%char :: d :: ds) [])
    by (rewrite lit_spec; reflexivity).
  rewrite (seq_cons (Re.opt _) Re.eol _ (b2, []) (l2 ++ flat_map (Re.plus Py.is_digit) l1 ++ [(b0, " "%char :: d :: ds)])).
  - reflexivity.
  - unfold Re.opt, Re.alt, Re.eps. rewrite (seq_cons _ _ _ _ _ E1), E2.
    rewrite <- !app_assoc. reflexivity.
Qed.

Lemma fields_sep_app sep sp : forall v,
  forallb sep sp = true -> Py.fields sep (sp ++ v) = Py.fields sep v.
Proof.
  induction sp as [|c sp IH]; intros v H; [reflexivity|].
  simpl in H. apply andb_true_iff in H. destruct H as [Hc H].
  simpl. rewrite Hc. apply IH. exact H.
Qed.

Lemma digits_not_space ds :
  forallb Py.is_digit ds = true ->
  forallb (fun c => negb (Py.is_space c)) ds = true.
Proof.
  rewrite !forallb_forall. intros H c Hc. specialize (H c Hc).
  destruct (Py.is_space c) eqn:E; [|reflexivity].
  apply space_not_word in E. apply digit_is_word in H. congruence.
Qed.

Lemma is_track_number_squeeze title :
  is_track_number title = Re.matches re_track (squeeze (Py.lower title)).
Proof. unfold is_track_number. rewrite depunct_collapse_strip. reflexivity. Qed.

Lemma cleaned_title_squeeze title : cleaned_title title = squeeze (Py.lower title).
Proof. apply strip_collapse_depunct. Qed.

Lemma single_line_newline_end u : single_line (u ++ [Py.newline]) = false.
Proof. rewrite single_line_app. apply andb_false_r. Qed.

(** C9.  [is_track_number] holds exactly when the cleaned title is the
    word "track", or "track", one space and a run of one or more digits;
    so it holds of "Track 12" and not of "Track Star". *)
Theorem is_track_number_spec :
  (forall title,
     is_track_number title = true <->
     (cleaned_title title = py "track" \/
      exists ds, ds <> [] /\ forallb Py.is_digit ds = true /\
                 cleaned_title title = py "track " ++ ds)) /\
  is_track_number (py "Track 12") = true /\
  is_track_number (py "Track Star") = false.
Proof.
  split; [|split; reflexivity].
  intros title. rewrite is_track_number_squeeze, cleaned_title_squeeze.
  pose proof (words_tokens (Py.lower title)) as Ht.
  pose proof (single_line_unwords _ Ht) as Hl.
  pose proof (split_ws_unwords _ Ht) as Hw.
  fold (squeeze (Py.lower title)) in Hl, Hw.
  set (u := squeeze (Py.lower title)) in *.
  split.
  - intros Hm. apply re_track_inv in Hm. destruct Hm as (r & Hu & Hr).
    destruct Hr as [[->| ->]|(sp & dg & tl & -> & Hsp1 & Hsp2 & Hdg1 & Hdg2 & [->| ->])].
    + left. rewrite Hu. apply app_nil_r.
    + rewrite Hu, single_line_newline_end in Hl. discriminate.
    + right. exists dg. repeat split; try assumption.
      rewrite app_nil_r in Hu. rewrite Hu in Hw.
      unfold Py.split_ws in Hw.
      rewrite fields_app_word in Hw.
      * rewrite fields_sep_app in Hw by exact Hsp2.
        rewrite <- (app_nil_r dg) in Hw at 1.
        rewrite fields_app_word in Hw
          by (try assumption; try reflexivity; apply digits_not_space; exact Hdg2).
        unfold u at 1, squeeze. rewrite <- Hw. reflexivity.
      * discriminate.
      * reflexivity.
      * destruct sp as [|c sp]; [congruence|]. simpl in *.
        apply andb_true_iff in Hsp2. rewrite (proj1 Hsp2). reflexivity.
    + rewrite Hu, !app_assoc, single_line_newline_end in Hl. discriminate.
  - intros [->|(ds & Hne & Hd & ->)].
    + reflexivity.
    + apply re_track_digits; assumption.
Qed.

(** ** The line loops *)

Lemma remove_duplicates_loop_snoc lines : forall seen unique_lines line,
  remove_duplicates_loop seen unique_lines (lines ++ [line]) =
  remove_duplicates_loop seen unique_lines lines ++
  (if decide (line_key line ∈ seen \/ line_key line ∈ map line_key lines)
   then [] else [Py.rstrip_nl line]).
Proof.
  induction lines as [|l lines IH]; intros seen acc line.
  - cbn [app remove_duplicates_loop map]. fold (line_key line).
    destruct (decide (line_key line ∈ seen)), (decide (_ \/ _)) as [H|H];
      try reflexivity; try (rewrite app_nil_r; reflexivity).
    + exfalso. apply H. left. assumption.
    + exfalso. destruct H as [H|H]; [contradiction | inversion H].
  - cbn [app remove_duplicates_loop map]. fold (line_key l).
    destruct (decide (line_key l ∈ seen)) as [Hl|Hl]; rewrite IH; f_equal.
    + destruct (decide (_ \/ _)) as [H|H], (decide (_ \/ _)) as [H'|H'];
        try reflexivity; exfalso.
      * apply H'. destruct H as [H|H]; [left; exact H | right; right; exact H].
      * apply H. destruct H' as [H'|H']; [left; exact H'|].
        apply elem_of_cons in H'. destruct H' as [->|H']; [left; exact Hl | right; exact H'].
    + destruct (decide (_ \/ _)) as [H|H], (decide (_ \/ _)) as [H'|H'];
        try reflexivity; exfalso.
      * apply H'. destruct H as [H|H]; [|right; right; exact H].
        apply elem_of_union in H. destruct H as [H|H]; [|left; exact H].
        apply elem_of_singleton in H. right. rewrite H. left.
      * apply H. destruct H' as [H'|H']; [left; apply elem_of_union; right; exact H'|].
        apply elem_of_cons in H'. destruct H' as [->|H']; [|right; exact H'].
        left. apply elem_of_union. left. apply elem_of_singleton. reflexivity.
Qed.

Lemma rstrip_by_decomp p s :
  exists tl, s = Py.rstrip_by p s ++ tl /\ forallb p tl = true.
Proof.
  induction s as [|c t (tl & Ht & Hp)]; [exists []; split; reflexivity|].
  rewrite rstrip_by_cons.
  destruct (Py.rstrip_by p t) as [|y r] eqn:Er.
  - simpl in Ht. subst tl. destruct (p c) eqn:Hc.
    + exists (c :: t). split; [reflexivity|]. simpl. rewrite Hc. exact Hp.
    + exists t. split; [reflexivity | exact Hp].
  - exists tl. split; [|exact Hp]. rewrite Ht at 1. reflexivity.
Qed.



Lemma compare_loop_spec (reference : gset str) (lines : list str) :
  forall kept_lines removed_count,
  compare_loop reference kept_lines removed_count lines =
  (kept_lines ++ (Py.strip <$> filter (kept_line reference) lines),
   removed_count + length (filter (removed_line reference) lines)).
Proof.
  induction lines as [|l lines IH]; intros kept removed.
  - simpl. rewrite app_nil_r. f_equal. lia.
  - cbn [compare_loop]. rewrite !filter_cons.
    destruct (decide (kept_line reference l)) as [Hk|Hk],
             (decide (removed_line reference l)) as [Hr|Hr];
      unfold kept_line, removed_line in Hk, Hr;
      rewrite <- (normalize_title_strip l) in Hk, Hr;
      destruct (Py.strip l) as [|c t] eqn:El;
      try (destruct (decide (normalize_title (c :: t) ∈ reference)) as [Hin|Hin]);
      rewrite IH; try tauto;
      try (exfalso; apply Hk; split; [discriminate | exact Hin]);
      try (exfalso; apply Hr; split; [discriminate | exact Hin]).
    all: try (rewrite fmap_cons, El, <- app_assoc); try reflexivity.
    f_equal. simpl. lia.
Qed.

Lemma classify_lines (reference : gset str) (lines : list str) :
  length (filter (kept_line reference) lines)
  + length (filter (removed_line reference) lines)
  + length (filter blank_line lines) = length lines.
Proof.
  induction lines as [|l lines IH]; [reflexivity|].
  rewrite !filter_cons.
  destruct (decide (kept_line reference l)) as [Hk|Hk],
           (decide (removed_line reference l)) as [Hr|Hr],
           (decide (blank_line l)) as [Hb|Hb];
    unfold kept_line, removed_line, blank_line in Hk, Hr, Hb;
    simpl; try lia; exfalso;
    destruct (decide (normalize_title l ∈ reference)); tauto.
Qed.

(** [compare_and_remove_duplicates] passes over blank lines, keeps
    (trimmed, in order) the other lines whose [normalize_title] key is not
    in the reference set, counts the other lines whose [normalize_title]
    key is in it, and the count is the number of lines less the kept and
    the blank ones. *)
Lemma compare_and_remove_duplicates_by_normalize_title (reference : gset str) (lines : list str) :
  compare_and_remove_duplicates reference lines =
    (Py.strip <$> filter (kept_line reference) lines,
     length (filter (removed_line reference) lines)) /\
  snd (compare_and_remove_duplicates reference lines) =
    length lines - length (fst (compare_and_remove_duplicates reference lines))
    - length (filter blank_line lines) /\
  length (fst (compare_and_remove_duplicates reference lines))
    + snd (compare_and_remove_duplicates reference lines)
    + length (filter blank_line lines) = length lines.
Proof.
  unfold compare_and_remove_duplicates. rewrite compare_loop_spec.
  cbn [app fst snd Nat.add]. rewrite length_fmap.
  pose proof (classify_lines reference lines). repeat split; lia.
Qed.

(** C7.  The key that [compare_and_remove_duplicates] looks up is the one
    of [normalize_title], which keeps the space before a featuring marker,
    and not the NormalizedKey: against a playlist that holds
    "Halo feat. Z" by B, the line "Halo" has the NormalizedKey of the
    playlist entry, and yet the code keeps it and counts nothing. *)
Theorem compare_and_remove_duplicates_keeps_duplicate :
  let playlist := [Some (Track (py "Halo feat. Z") [py "B"] (py "id1"))] in
  NormalizedKey (py "Halo") = py "halo" /\
  buildReferenceSet_spec playlist = {[py "halo"]} /\
  filterAgainstReferenceSet_spec [py "Halo"] (buildReferenceSet_spec playlist) = ([], 1) /\
  get_playlist_titles playlist = {[py "halo "]} /\
  normalize_title (py "Halo") = py "halo" /\
  compare_and_remove_duplicates (get_playlist_titles playlist) [py "Halo"]
  = ([py "Halo"], 0).
Proof.
  cbv zeta.
  assert (Hk : NormalizedKey (py "Halo") = py "halo") by (vm_compute; reflexivity).
  assert (Hr : buildReferenceSet_spec
                 [Some (Track (py "Halo feat. Z") [py "B"] (py "id1"))] = {[py "halo"]}).
  { unfold buildReferenceSet_spec. cbn [omap list_omap id fmap list_fmap].
    replace (NormalizedKey (full_title (Track (py "Halo feat. Z") [py "B"] (py "id1"))))
      with (py "halo") by (vm_compute; reflexivity).
    cbn [list_to_set foldr]. apply right_id_L; apply _. }
  assert (Hp : get_playlist_titles
                 [Some (Track (py "Halo feat. Z") [py "B"] (py "id1"))] = {[py "halo "]}).
  { unfold get_playlist_titles. cbn [get_playlist_titles_loop].
    replace (normalize_title (full_title (Track (py "Halo feat. Z") [py "B"] (py "id1"))))
      with (py "halo ") by (vm_compute; reflexivity).
    apply right_id_L; apply _. }
  assert (Hn : normalize_title (py "Halo") = py "halo") by (vm_compute; reflexivity).
  split; [exact Hk|]. split; [exact Hr|]. split.
  { rewrite Hr. unfold filterAgainstReferenceSet_spec.
    rewrite !filter_cons, !filter_nil, Hk.
    replace (Py.strip (py "Halo")) with (py "Halo") by (vm_compute; reflexivity).
    destruct (decide (py "Halo" <> [] /\ py "halo" ∉ ({[py "halo"]} : gset str)))
      as [[_ Hn']|_]; [exfalso; apply Hn'; apply elem_of_singleton; reflexivity|].
    destruct (decide (py "Halo" <> [] /\ py "halo" ∈ ({[py "halo"]} : gset str)))
      as [_|Hn']; [reflexivity|].
    exfalso. apply Hn'. split; [discriminate | apply elem_of_singleton; reflexivity]. }
  split; [exact Hp|]. split; [exact Hn|].
  rewrite Hp. unfold compare_and_remove_duplicates. cbn [compare_loop].
  replace (Py.strip (py "Halo")) with (py "Halo") by (vm_compute; reflexivity).
  rewrite Hn. cbv iota beta.
  destruct (decide (py "halo" ∈ ({[py "halo "]} : gset str))) as [Hin|Hin].
  - apply elem_of_singleton in Hin. discriminate Hin.
  - reflexivity.
Qed.

(** ** Parsing a song line *)

Lemma split_first_Some sep : forall s a b,
  Py.split_first sep s = Some (a, b) -> s = a ++ sep ++ b.
Proof.
  induction s as [|c t IH]; intros a b H.
  - simpl in H. destruct (Py.drop_prefix sep []) as [r|] eqn:E; [|discriminate].
    injection H as <- <-. apply drop_prefix_Some in E. exact E.
  - cbn [Py.split_first] in H.
    destruct (Py.drop_prefix sep (c :: t)) as [r|] eqn:E.
    + injection H as <- <-. apply drop_prefix_Some in E. exact E.
    + destruct (Py.split_first sep t) as [[a' b']|] eqn:E'; [|discriminate].
      injection H as <- <-. rewrite (IH a' b' eq_refl). reflexivity.
Qed.

(** [split_first] finds the first occurrence of the separator. *)
Lemma split_first_first sep a' : forall b' s,
  s = a' ++ sep ++ b' ->
  exists a b, Py.split_first sep s = Some (a, b) /\ length a <= length a'.
Proof.
  induction a' as [|c a' IH]; intros b' s ->.
  - exists [], b'. split; [|reflexivity].
    destruct (sep ++ b') as [|x t] eqn:E; cbn [app Py.split_first]; rewrite <- ?E;
      rewrite drop_prefix_app_same; reflexivity.
  - cbn [app Py.split_first].
    destruct (Py.drop_prefix sep (c :: a' ++ sep ++ b')) as [r|].
    + exists [], r. split; [reflexivity | simpl; lia].
    + destruct (IH b' _ eq_refl) as (a & b & -> & Hlen).
      exists (c :: a), b. split; [reflexivity | simpl; lia].
Qed.


(** Without the delimiter [parse_song_line] returns the line as it is,
    not trimmed; with the delimiter both parts are trimmed. *)
Lemma parse_song_line_examples :
  parse_song_line (py "  Intro ") = (py "  Intro ", []) /\
  parseSongLine_spec (py "  Intro ") = (py "Intro", []) /\
  parse_song_line (py "  Intro by  Artist ") = (py "Intro", py "Artist").
Proof. repeat split; vm_compute; reflexivity. Qed.




(** ** Cleaning a file name *)

(** C8.  [clean_filename] removes the hidden-file marker wherever it
    occurs in the name, not only as a prefix; the example of the spec
    holds. *)
Theorem clean_filename_hidden_marker :
  clean_filename (py "Mr._Brightside.mp3") = py "MrBrightside" /\
  cleanFilename_spec (py "Mr._Brightside.mp3") = py "Mr _Brightside" /\
  clean_filename (py "03-Song Title (Live) [HD].mp3") = py "Song Title" /\
  cleanFilename_spec (py "03-Song Title (Live) [HD].mp3") = py "Song Title".
Proof. repeat split; vm_compute; reflexivity. Qed.

(** ** Query generation *)

Lemma generate_search_queries_shape title artists :
  generate_search_queries title artists =
  [clean_for_search title ++ py " " ++ clean_for_search artists; clean_for_search title]
  ++ match Py.split_first (py " _ ") (clean_for_search artists) with
     | Some (first_artist, _) => [clean_for_search title ++ py " " ++ first_artist]
     | None => []
     end
  ++ (if Nat.ltb 2 (length (Py.split_ws (clean_for_search title)))
      then match List.filter not_article (Py.split_ws (clean_for_search title)) with
           | [] => []
           | w :: ws =>
               [Py.join (py " ") (w :: ws) ++ py " " ++ clean_for_search artists]
           end
      else []).
Proof.
  unfold generate_search_queries.
  destruct (Py.split_first (py " _ ") (clean_for_search artists)) as [[f r]|];
    destruct (Nat.ltb 2 _);
    try destruct (List.filter not_article _); reflexivity.
Qed.

(** C4, as stated, fails: the artist text is cleaned as one string, so
    the separator between two artist names stays in the first query. *)
Lemma first_query_keeps_separator :
  hd [] (generate_search_queries (py "Under Pressure")
           (artist_text [py "Queen"; py "David Bowie"]))
  <> first_query_spec (py "Under Pressure") [py "Queen"; py "David Bowie"].
Proof. vm_compute. discriminate. Qed.

(** C4, amended.  The first query is the cleaned title, one space, and
    the artist text cleaned as a whole; for a single artist name this is
    the form of the spec. *)
Theorem first_query_spec_single :
  (forall title artists, exists rest,
     generate_search_queries title artists =
     (clean_for_search title ++ py " " ++ clean_for_search artists) :: rest) /\
  (forall title artist, exists rest,
     generate_search_queries title (artist_text [artist]) =
     first_query_spec title [artist] :: rest).
Proof.
  split.
  - intros title artists. rewrite generate_search_queries_shape. eexists. reflexivity.
  - intros title artist. rewrite generate_search_queries_shape. eexists. reflexivity.
Qed.

Lemma clean_for_search_squeezed x :
  exists ws, Forall token ws /\ clean_for_search x = unwords ws.
Proof.
  unfold clean_for_search. rewrite depunct_collapse_strip.
  eexists. split; [apply words_tokens | reflexivity].
Qed.

Lemma cons_head_app c ws vs :
  ws <> [] -> Py.cons_head c (ws ++ vs) = Py.cons_head c ws ++ vs.
Proof. destruct ws; [congruence | reflexivity]. Qed.

(** Splitting distributes over a separator character. *)
Lemma fields_app_sep sep c u : forall v,
  sep c = true ->
  Py.fields sep (u ++ c :: v) = Py.fields sep u ++ Py.fields sep v.
Proof.
  intros v Hc. induction u as [|x u IH].
  - simpl. rewrite Hc. reflexivity.
  - cbn [app Py.fields]. rewrite IH.
    destruct (sep x); [reflexivity|].
    destruct u as [|y u].
    + simpl. rewrite Hc. reflexivity.
    + cbn [app Py.starts_with].
      destruct (negb (sep y)) eqn:Ey; [|reflexivity].
      apply cons_head_app. apply fields_starts. simpl. exact Ey.
Qed.

Lemma underscores_app l1 l2 : underscores (l1 ++ l2) = underscores l1 + underscores l2.
Proof. unfold underscores. rewrite List.filter_app, length_app. reflexivity. Qed.

Lemma underscores_filter l : underscores (List.filter not_article l) = underscores l.
Proof.
  unfold underscores. induction l as [|w l IH]; [reflexivity|].
  cbn [List.filter].
  destruct (Py.eqs (py "_") w) eqn:E.
  - apply eqs_eq in E. subst w. simpl. f_equal. exact IH.
  - destruct (not_article w); cbn [List.filter]; rewrite ?E; exact IH.
Qed.

Lemma filter_tokens (f : str -> bool) ws : Forall token ws -> Forall token (List.filter f ws).
Proof.
  induction 1 as [|w ws Hw Hws IH]; simpl; [constructor|].
  destruct (f w); [constructor|]; assumption.
Qed.

Lemma split_ws_query u v :
  Py.split_ws (u ++ py " " ++ v) = Py.split_ws u ++ Py.split_ws v.
Proof. apply fields_app_sep. reflexivity. Qed.

(** The first-artist query and the article-free query never coincide:
    the latter has one more lone underscore among its words. *)
Lemma first_artist_vs_filtered ws first_artist rest_artists artists :
  Forall token ws ->
  artists = first_artist ++ py " _ " ++ rest_artists ->
  unwords ws ++ py " " ++ first_artist
  <> unwords (List.filter not_article ws) ++ py " " ++ artists.
Proof.
  intros Ht -> H. apply (f_equal Py.split_ws) in H.
  rewrite !split_ws_query, !split_ws_unwords in H by (try apply filter_tokens; exact Ht).
  change (py " _ " ++ rest_artists) with (py " " ++ (py "_" ++ py " " ++ rest_artists)) in H.
  rewrite !split_ws_query in H.
  apply (f_equal underscores) in H.
  rewrite !underscores_app, underscores_filter in H.
  change (underscores (Py.split_ws (py "_"))) with 1 in H. lia.
Qed.

Lemma query_longer u v : u ++ py " " ++ v <> u.
Proof.
  intros H. apply (f_equal (@length _)) in H. rewrite !length_app in H. simpl in H. lia.
Qed.

Lemma NoDup_snoc (l : list str) x :
  List.NoDup (l ++ [x]) <-> List.NoDup l /\ ~ In x l.
Proof.
  induction l as [|y l IH]; simpl.
  - split; [intros _; split; [constructor | tauto] | intros _; repeat constructor; tauto].
  - rewrite !List.NoDup_cons_iff, IH, in_app_iff. simpl. intuition congruence.
Qed.

Lemma filtered_vs_first ws artists :
  Forall token ws ->
  unwords ws ++ py " " ++ artists
  = unwords (List.filter not_article ws) ++ py " " ++ artists
  <-> List.filter not_article ws = ws.
Proof.
  intros Ht. split.
  - intros H. apply app_inv_tail in H. apply (f_equal Py.split_ws) in H.
    rewrite !split_ws_unwords in H by (try apply filter_tokens; exact Ht).
    symmetry. exact H.
  - intros ->. reflexivity.
Qed.

Lemma first_artist_shorter title first_artist rest_artists :
  title ++ py " " ++ first_artist ++ py " _ " ++ rest_artists
  <> title ++ py " " ++ first_artist.
Proof.
  intros H. apply (f_equal (@length _)) in H. rewrite !length_app in H. simpl in H. lia.
Qed.

(** The two baseline queries and the first-artist variant differ. *)
Lemma baseline_queries_NoDup title artists :
  List.NoDup
    ([title ++ py " " ++ artists; title]
     ++ match Py.split_first (py " _ ") artists with
        | Some (first_artist, _) => [title ++ py " " ++ first_artist]
        | None => []
        end).
Proof.
  pose proof (query_longer title artists) as H12.
  destruct (Py.split_first (py " _ ") artists) as [[F R]|] eqn:Es.
  - apply split_first_Some in Es.
    pose proof (first_artist_shorter title F R) as H13. rewrite <- Es in H13.
    pose proof (query_longer title F) as H32.
    cbn [app]. rewrite !List.NoDup_cons_iff. cbn [In].
    intuition (try congruence). apply List.NoDup_nil.
  - cbn [app]. rewrite !List.NoDup_cons_iff. cbn [In].
    intuition (try congruence). apply List.NoDup_nil.
Qed.

Lemma first_artist_query_vs_filtered ws artists q :
  Forall token ws ->
  In q match Py.split_first (py " _ ") artists with
       | Some (first_artist, _) => [unwords ws ++ py " " ++ first_artist]
       | None => []
       end ->
  q <> unwords (List.filter not_article ws) ++ py " " ++ artists.
Proof.
  intros Ht Hin.
  destruct (Py.split_first (py " _ ") artists) as [[F R]|] eqn:Es; [|destruct Hin].
  destruct Hin as [<-|[]]. apply split_first_Some in Es.
  exact (first_artist_vs_filtered ws F R artists Ht Es).
Qed.

(** C3, as stated, fails: a three-word title without article yields the
    first query again as the article-free variant. *)
Lemma generate_search_queries_repeats :
  ~ List.NoDup (generate_search_queries (py "one two three") (py "x")).
Proof.
  assert (E : generate_search_queries (py "one two three") (py "x")
              = [py "one two three x"; py "one two three"; py "one two three x"])
    by (vm_compute; reflexivity).
  rewrite E. intros H. apply List.NoDup_cons_iff in H. destruct H as [H _].
  apply H. right. left. reflexivity.
Qed.

(** A query is repeated exactly when the article-free variant is emitted
    and is the first query again or spells the title-only query. *)
Lemma generate_search_queries_NoDup_iff title artists :
  List.NoDup (generate_search_queries title artists) <->
  ~ (2 < length (Py.split_ws (clean_for_search title)) /\
     List.filter not_article (Py.split_ws (clean_for_search title)) <> [] /\
     (List.filter not_article (Py.split_ws (clean_for_search title))
      = Py.split_ws (clean_for_search title) \/
      Py.join (py " ") (List.filter not_article (Py.split_ws (clean_for_search title)))
        ++ py " " ++ clean_for_search artists
      = clean_for_search title)).
Proof.
  rewrite generate_search_queries_shape.
  destruct (clean_for_search_squeezed title) as (ws & Ht & ->).
  rewrite (split_ws_unwords ws Ht).
  set (A := clean_for_search artists).
  pose proof (baseline_queries_NoDup (unwords ws) A) as Hbase.
  destruct (Nat.ltb 2 (length ws)) eqn:El.
  2: { apply Nat.ltb_ge in El. rewrite app_nil_r.
       split; [intros _ (Hlt & _); lia | intros _; exact Hbase]. }
  apply Nat.ltb_lt in El.
  destruct (List.filter not_article ws) as [|w fw] eqn:Ef.
  { rewrite app_nil_r. split; [intros _ (_ & Hne & _); congruence | intros _; exact Hbase]. }
  assert (Hne : List.filter not_article ws <> []) by (rewrite Ef; discriminate).
  fold (unwords (w :: fw)). rewrite <- Ef in *. clear Ef w fw.
  rewrite app_assoc, NoDup_snoc. split.
  - intros [_ Hnin] (_ & _ & [Heq|Heq]); apply Hnin.
    + left. rewrite Heq. reflexivity.
    + right. left. symmetry. exact Heq.
  - intros H. split; [exact Hbase|]. intros Hin.
    apply in_app_or in Hin. destruct Hin as [[E|[E|[]]]|Hin].
    + apply H. repeat split; [exact El | exact Hne |].
      left. apply (filtered_vs_first ws A Ht). exact E.
    + apply H. repeat split; [exact El | exact Hne |]. right. symmetry. exact E.
    + exact (first_artist_query_vs_filtered ws A _ Ht Hin eq_refl).
Qed.

(** C3, amended.  The queries are not deduplicated.  The result is the
    two baseline queries, then the first-artist variant when the cleaned
    artist text holds [" _ "], then the article-free variant when the
    cleaned title has more than two words, one of them not an article.
    The baseline queries and the first-artist variant are pairwise
    distinct; a string is repeated exactly when the article-free variant
    is emitted and either no title word is an article, which is when it is
    the first query again, or it spells the title-only query. *)
Theorem generate_search_queries_duplicates title artists :
  let clean_title := clean_for_search title in
  let clean_artists := clean_for_search artists in
  let title_words := Py.split_ws clean_title in
  let filtered_words := List.filter not_article title_words in
  let variant := Py.join (py " ") filtered_words ++ py " " ++ clean_artists in
  let baseline :=
    [clean_title ++ py " " ++ clean_artists; clean_title]
    ++ match Py.split_first (py " _ ") clean_artists with
       | Some (first_artist, _) => [clean_title ++ py " " ++ first_artist]
       | None => []
       end in
  generate_search_queries title artists
  = baseline ++ (if Nat.ltb 2 (length title_words)
                 then match filtered_words with [] => [] | _ :: _ => [variant] end
                 else []) /\
  List.NoDup baseline /\
  (List.NoDup (generate_search_queries title artists) <->
   ~ (2 < length title_words /\ filtered_words <> [] /\
      (filtered_words = title_words \/ variant = clean_title))) /\
  (variant = clean_title ++ py " " ++ clean_artists <-> filtered_words = title_words).
Proof.
  cbv zeta. split; [|split; [|split]].
  - rewrite generate_search_queries_shape, <- app_assoc.
    destruct (List.filter not_article (Py.split_ws (clean_for_search title)));
      reflexivity.
  - apply baseline_queries_NoDup.
  - apply generate_search_queries_NoDup_iff.
  - destruct (clean_for_search_squeezed title) as (ws & Ht & ->).
    rewrite (split_ws_unwords ws Ht).
    pose proof (filtered_vs_first ws (clean_for_search artists) Ht) as H.
    unfold unwords in H at 2. rewrite <- H. split; intros E; symmetry; exact E.
Qed.

(** * Further properties of the scripts *)

(** ** Chunked playlist calls *)

Lemma chunks_concat {A : Type} (s m : nat) : forall l : list A,
  length l <= m * s ->
  concat (map (fun k => firstn s (skipn (k * s) l)) (seq 0 m)) = l.
Proof.
  induction m as [|m IH]; intros l Hl.
  - destruct l; [reflexivity | simpl in Hl; lia].
  - cbn [seq map concat]. rewrite <- seq_shift, map_map.
    rewrite (map_ext _ (fun k => firstn s (skipn (k * s) (skipn s l)))).
    + rewrite IH by (rewrite length_skipn; lia). apply firstn_skipn.
    + intros k. rewrite skipn_skipn. f_equal. f_equal. lia.
Qed.

Lemma chunked_calls_unfold track_ids :
  chunked_calls track_ids =
  map (fun k => firstn chunk_size (skipn (k * chunk_size) track_ids))
      (seq 0 ((length track_ids + 99) / chunk_size)).
Proof.
  unfold chunked_calls, py_range, slice. rewrite map_map, Nat.sub_0_r.
  apply map_ext. intros k. f_equal. lia.
Qed.

Lemma chunk_count_bounds n :
  n <= ((n + 99) / chunk_size) * chunk_size /\
  (((n + 99) / chunk_size) - 1) * chunk_size <= n /\
  (0 < n -> (((n + 99) / chunk_size) - 1) * chunk_size < n).
Proof.
  unfold chunk_size.
  pose proof (Nat.div_mod_eq (n + 99) 100) as E.
  pose proof (Nat.mod_upper_bound (n + 99) 100 ltac:(lia)) as B.
  lia.
Qed.

(** X1.  The chunks passed to the playlist calls, put end to end, are
    the list of track ids: nothing is lost, repeated or reordered. *)
Theorem chunked_calls_concat track_ids :
  concat (add_tracks_to_playlist track_ids) = track_ids /\
  concat (remove_tracks_from_playlist track_ids) = track_ids.
Proof.
  unfold add_tracks_to_playlist, remove_tracks_from_playlist.
  rewrite chunked_calls_unfold.
  split; apply chunks_concat; apply chunk_count_bounds.
Qed.

Lemma chunk_length (track_ids : list str) k :
  length (firstn chunk_size (skipn (k * chunk_size) track_ids))
  = Nat.min chunk_size (length track_ids - k * chunk_size).
Proof. rewrite length_firstn, length_skipn. reflexivity. Qed.

(** X2.  No call is made for an empty list; otherwise there are
    ceil(n / 100) calls, each with at least one and at most 100 ids, and
    every call but the last carries exactly 100. *)
Theorem chunked_calls_sizes track_ids :
  length (chunked_calls track_ids) = (length track_ids + 99) / 100 /\
  Forall (fun chunk => 1 <= length chunk <= 100) (chunked_calls track_ids) /\
  Forall (fun chunk => length chunk = 100) (removelast (chunked_calls track_ids)) /\
  (chunked_calls track_ids = [] <-> track_ids = []).
Proof.
  rewrite chunked_calls_unfold.
  set (n := length track_ids).
  destruct (chunk_count_bounds n) as (B1 & B2 & B3).
  set (m := (n + 99) / chunk_size) in *.
  assert (Hm : m = 0 <-> n = 0).
  { unfold m, chunk_size. split; intros H.
    - apply Nat.div_small_iff in H; lia.
    - rewrite H. reflexivity. }
  repeat split.
  - rewrite length_map, length_seq. reflexivity.
  - apply List.Forall_forall. intros c Hc. apply in_map_iff in Hc.
    destruct Hc as (k & <- & Hk). apply in_seq in Hk.
    rewrite chunk_length. fold n. unfold chunk_size in *.
    assert (k * 100 <= (m - 1) * 100) by (apply Nat.mul_le_mono_r; lia).
    assert (0 < n) by (destruct (Nat.eq_dec n 0) as [E|E]; [apply Hm in E; lia | lia]).
    specialize (B3 H0). lia.
  - apply List.Forall_forall. intros c Hc.
    destruct m as [|m'] eqn:Em; [destruct Hc|].
    rewrite seq_S, map_app in Hc. cbn [map] in Hc. rewrite removelast_last in Hc.
    apply in_map_iff in Hc. destruct Hc as (k & <- & Hk). apply in_seq in Hk.
    rewrite chunk_length. fold n. unfold chunk_size in *.
    assert ((k + 1) * 100 <= m' * 100) by (apply Nat.mul_le_mono_r; lia).
    simpl in B2. lia.
  - intros H. apply (f_equal (@length _)) in H. rewrite length_map, length_seq in H.
    simpl in H. apply Hm in H. destruct track_ids; [reflexivity | discriminate].
  - intros ->. reflexivity.
Qed.

(** ** Deduplicating the lines of a file *)

Lemma line_key_rstrip line : line_key (Py.rstrip_nl line) = line_key line.
Proof. unfold line_key, Py.rstrip_nl. rewrite rstrip_by_idem. reflexivity. Qed.

Lemma remove_duplicates_snoc lines line :
  remove_duplicates_from_file (lines ++ [line]) =
  remove_duplicates_from_file lines ++
  (if decide (line_key line ∈ map line_key lines) then [] else [Py.rstrip_nl line]).
Proof.
  unfold remove_duplicates_from_file. rewrite remove_duplicates_loop_snoc. f_equal.
  destruct (decide (_ \/ _)) as [H|H], (decide (_ ∈ map _ _)) as [H'|H'];
    try reflexivity; exfalso.
  - destruct H as [H|H]; [apply elem_of_empty in H; exact H | contradiction].
  - apply H. right. exact H'.
Qed.

Lemma remove_duplicates_keys lines k :
  In k (map line_key (remove_duplicates_from_file lines)) <-> In k (map line_key lines).
Proof.
  induction lines as [|line lines IH] using rev_ind; [reflexivity|].
  rewrite remove_duplicates_snoc, !map_app, !in_app_iff, IH.
  destruct (decide (_ ∈ _)) as [H|H]; cbn [map In].
  - apply list_elem_of_In in H.
    split; [tauto|]. intros [Hk|[<-|[]]]; [left; exact Hk | left; exact H].
  - rewrite line_key_rstrip. reflexivity.
Qed.

Lemma remove_duplicates_keys_NoDup lines :
  List.NoDup (map line_key (remove_duplicates_from_file lines)).
Proof.
  induction lines as [|line lines IH] using rev_ind; [constructor|].
  rewrite remove_duplicates_snoc, map_app.
  destruct (decide (_ ∈ _)) as [H|H]; cbn [map].
  - rewrite app_nil_r. exact IH.
  - apply NoDup_snoc. split; [exact IH|].
    rewrite line_key_rstrip, remove_duplicates_keys, <- list_elem_of_In. exact H.
Qed.

(** X3.  After [remove_duplicates_from_file] the file holds exactly one
    line for every key of the input: the keys of the kept lines are
    pairwise distinct and are the keys of the input lines. *)
Theorem remove_duplicates_one_line_per_key lines :
  List.NoDup (map line_key (remove_duplicates_from_file lines)) /\
  forall k, In k (map line_key (remove_duplicates_from_file lines))
            <-> In k (map line_key lines).
Proof.
  split; [apply remove_duplicates_keys_NoDup | apply remove_duplicates_keys].
Qed.

Lemma remove_duplicates_fixed lines :
  List.NoDup (map line_key lines) ->
  Forall (fun l => Py.rstrip_nl l = l) lines ->
  remove_duplicates_from_file lines = lines.
Proof.
  induction lines as [|line lines IH] using rev_ind; intros Hn Hr; [reflexivity|].
  rewrite remove_duplicates_snoc. rewrite map_app in Hn. cbn [map] in Hn.
  apply NoDup_snoc in Hn. destruct Hn as [Hn Hnin].
  apply Forall_app in Hr. destruct Hr as [Hr Hl].
  rewrite IH by assumption.
  destruct (decide (_ ∈ _)) as [H|_]; [apply list_elem_of_In in H; contradiction|].
  inversion Hl as [|? ? E _]; subst. rewrite E. reflexivity.
Qed.

Lemma remove_duplicates_stripped lines :
  Forall (fun l => Py.rstrip_nl l = l) (remove_duplicates_from_file lines).
Proof.
  induction lines as [|line lines IH] using rev_ind; [constructor|].
  rewrite remove_duplicates_snoc. apply Forall_app. split; [exact IH|].
  destruct (decide (_ ∈ _)); constructor; [|constructor].
  unfold Py.rstrip_nl. apply rstrip_by_idem.
Qed.

(** X4.  Removing duplicates is idempotent: a second pass over the lines
    written by the first changes nothing. *)
Theorem remove_duplicates_idempotent lines :
  remove_duplicates_from_file (remove_duplicates_from_file lines)
  = remove_duplicates_from_file lines.
Proof.
  apply remove_duplicates_fixed;
    [apply remove_duplicates_keys_NoDup | apply remove_duplicates_stripped].
Qed.

(** ** Comparing a file with a playlist *)

Lemma kept_line_strip reference line :
  kept_line reference line -> kept_line reference (Py.strip line).
Proof.
  unfold kept_line. rewrite strip_idem, normalize_title_strip. tauto.
Qed.

Lemma kept_lines_fixed (reference : gset str) (lines : list str) :
  Forall (fun l => kept_line reference l /\ Py.strip l = l) lines ->
  compare_and_remove_duplicates reference lines = (lines, 0).
Proof.
  intros H. unfold compare_and_remove_duplicates. rewrite compare_loop_spec.
  cbn [app Nat.add]. induction H as [|l lines [Hk Hs] _ IH]; [reflexivity|].
  rewrite !filter_cons.
  destruct (decide (kept_line reference l)) as [_|Hn]; [|contradiction].
  destruct (decide (removed_line reference l)) as [[_ Hr]|_];
    [destruct Hk as [_ Hk]; contradiction|].
  rewrite fmap_cons, Hs. injection IH as -> ->. reflexivity.
Qed.

Lemma kept_lines_kept (reference : gset str) (lines : list str) :
  Forall (fun l => kept_line reference l /\ Py.strip l = l)
    (Py.strip <$> filter (kept_line reference) lines).
Proof.
  induction lines as [|l lines IH]; [constructor|].
  rewrite filter_cons. destruct (decide (kept_line reference l)) as [Hk|_]; [|exact IH].
  rewrite fmap_cons. constructor; [|exact IH].
  split; [apply kept_line_strip; exact Hk | apply strip_idem].
Qed.

(** X5.  Comparing is idempotent: run again on the lines it kept, with
    the same playlist, [compare_and_remove_duplicates] keeps them all and
    removes none. *)
Theorem compare_and_remove_duplicates_idempotent (reference : gset str) (lines : list str) :
  compare_and_remove_duplicates reference
    (fst (compare_and_remove_duplicates reference lines))
  = (fst (compare_and_remove_duplicates reference lines), 0).
Proof.
  apply kept_lines_fixed. unfold compare_and_remove_duplicates.
  rewrite compare_loop_spec. cbn [fst app]. apply kept_lines_kept.
Qed.

Lemma get_playlist_titles_loop_spec tracks : forall (titles : gset str) k,
  k ∈ get_playlist_titles_loop titles tracks <->
  k ∈ titles \/ exists t, In (Some t) tracks /\ k = normalize_title (full_title t).
Proof.
  induction tracks as [|[t|] tracks IH]; intros titles k; cbn [get_playlist_titles_loop].
  - split; [tauto | intros [H|(t & [] & _)]; exact H].
  - rewrite IH, elem_of_union, elem_of_singleton. cbn [In]. split.
    + intros [[H|H]|(t' & Hin & E)].
      * right. exists t. split; [left; reflexivity | exact H].
      * left. exact H.
      * right. exists t'. split; [right; exact Hin | exact E].
    + intros [H|(t' & [E|Hin] & E')].
      * left. right. exact H.
      * injection E as <-. left. left. exact E'.
      * right. exists t'. split; assumption.
  - rewrite IH. cbn [In]. split.
    + intros [H|(t' & Hin & E)];
        [left; exact H | right; exists t'; split; [right; exact Hin | exact E]].
    + intros [H|(t' & [E|Hin] & E')];
        [left; exact H | discriminate | right; exists t'; split; assumption].
Qed.

(** X6.  With the titles of a playlist as reference, a text is among
    the kept lines exactly when it is a non-blank trimmed line of the file
    and no track present in the playlist has its key; items without a
    track are passed over. *)
Theorem compare_with_playlist tracks lines s :
  s ∈ fst (compare_and_remove_duplicates (get_playlist_titles tracks) lines) <->
  s <> [] /\ (exists line, line ∈ lines /\ Py.strip line = s) /\
  ~ exists t, In (Some t) tracks /\ normalize_title (full_title t) = normalize_title s.
Proof.
  unfold compare_and_remove_duplicates. rewrite compare_loop_spec. cbn [fst app].
  rewrite list_elem_of_fmap. unfold get_playlist_titles. split.
  - intros (l & -> & Hl). apply list_elem_of_filter in Hl.
    destruct Hl as [[Hne Hk] Hin]. repeat split; [exact Hne | eauto |].
    intros (t & Ht & E). apply Hk. rewrite <- (normalize_title_strip l), <- E.
    apply get_playlist_titles_loop_spec. right. eauto.
  - intros (Hne & (l & Hin & <-) & Hno). exists l. split; [reflexivity|].
    apply list_elem_of_filter. split; [|exact Hin]. split; [exact Hne|].
    intros Hk. apply get_playlist_titles_loop_spec in Hk.
    destruct Hk as [Hk|(t & Ht & E)]; [apply elem_of_empty in Hk; exact Hk|].
    apply Hno. exists t. split; [exact Ht|].
    rewrite normalize_title_strip. symmetry. exact E.
Qed.

(** ** What the key of a line ignores *)

Lemma before_marker_app_marker A m B :
  is_marker m = true -> before_marker (A ++ m :: B) = before_marker A.
Proof.
  intros Hm. induction A as [|w A IH]; simpl; [rewrite Hm; reflexivity|].
  destruct (is_marker w); [reflexivity | rewrite IH; reflexivity].
Qed.

Lemma words_around_word u m v :
  token m ->
  words (u ++ py " " ++ m ++ py " " ++ v) = words u ++ m :: words v.
Proof.
  intros [Hne Hm]. unfold words.
  change (u ++ py " " ++ m ++ py " " ++ v) with (u ++ " "%char :: (m ++ " "%char :: v)).
  rewrite !fields_app_sep by reflexivity. f_equal.
  rewrite <- (app_nil_r m) at 1.
  rewrite fields_app_word; [reflexivity | exact Hne | | reflexivity].
  rewrite <- Hm. apply forallb_pointwise. intros c. apply negb_involutive.
Qed.

Lemma normalize_title_marker u m v :
  token m -> lowered m -> is_marker m = true ->
  normalize_title (u ++ py " " ++ m ++ py " " ++ v) =
  match before_marker (words (Py.lower u)) with
  | [] => []
  | _ :: _ => unwords (before_marker (words (Py.lower u))) ++ py " "
  end.
Proof.
  intros Ht Hl Hm. rewrite normalize_title_truncate. unfold squeeze.
  rewrite truncate_unwords by apply words_tokens.
  rewrite !lower_app, Hl. change (Py.lower (py " ")) with (py " ").
  rewrite (words_around_word _ m _ Ht).
  rewrite existsb_app. cbn [existsb]. rewrite Hm, orb_true_r.
  rewrite before_marker_app_marker by exact Hm. reflexivity.
Qed.

(** X7.  The key of a line ignores everything after a featuring marker,
    the artist after " by " included: two texts that agree up to a marker
    word have the same [normalize_title] key. *)
Theorem normalize_title_ignores_after_marker :
  Forall (fun m => forall u v w,
            normalize_title (u ++ py " " ++ m ++ py " " ++ v)
            = normalize_title (u ++ py " " ++ m ++ py " " ++ w))
         markers.
Proof.
  repeat constructor; intros u v w;
    rewrite !normalize_title_marker; try reflexivity; split; (discriminate || reflexivity).
Qed.

(** ** From unmatched_songs.txt back to title and artist *)

Lemma rstrip_by_length p s : length (Py.rstrip_by p s) <= length s.
Proof.
  destruct (rstrip_by_decomp p s) as (tl & E & _).
  rewrite E at 2. rewrite length_app. lia.
Qed.

Lemma strip_length s : length (Py.strip s) <= length s.
Proof.
  unfold Py.strip. pose proof (rstrip_by_length Py.is_space (Py.lstrip_by Py.is_space s)).
  pose proof (lstrip_by_length Py.is_space s). lia.
Qed.

Lemma unwords_first_char w ws :
  token w -> Py.starts_with Py.is_space (unwords (w :: ws)) = false.
Proof.
  intros Hw. pose proof (unwords_starts w ws Hw) as H.
  destruct (unwords (w :: ws)) as [|c t]; [discriminate|].
  simpl in *. apply negb_true_iff in H. exact H.
Qed.

Lemma fields_nil_all sep s : Py.fields sep s = [] -> forallb sep s = true.
Proof.
  induction s as [|c t IH]; [reflexivity|]. simpl.
  destruct (sep c); [exact IH|].
  destruct (Py.starts_with _ t); [destruct (Py.fields sep t)|]; discriminate.
Qed.

Lemma unwords_app X Y :
  X <> [] -> Y <> [] -> unwords (X ++ Y) = unwords X ++ py " " ++ unwords Y.
Proof.
  intros HX HY. induction X as [|x X IH]; [congruence|].
  destruct X as [|x' X].
  - cbn [app]. unfold unwords. rewrite join_cons by exact HY. reflexivity.
  - cbn [app] in *. unfold unwords in *.
    rewrite (join_cons _ x (x' :: X ++ Y)) by discriminate.
    rewrite (join_cons _ x (x' :: X)) by discriminate.
    rewrite IH by discriminate. rewrite <- !app_assoc. reflexivity.
Qed.

(** A text made of words in which " by" is followed by a space or by the
    end has the word "by" after its first word. *)
Lemma by_among_words ws a0 rest :
  Forall token ws ->
  unwords ws = a0 ++ py " " ++ py "by" ++ rest ->
  Py.starts_with (fun c => negb (Py.is_space c)) rest = false ->
  In (py "by") (tl ws).
Proof.
  intros Ht E Hrest.
  pose proof (split_ws_unwords ws Ht) as Hw. rewrite E in Hw.
  unfold Py.split_ws in Hw.
  change (a0 ++ py " " ++ py "by" ++ rest) with (a0 ++ " "%char :: (py "by" ++ rest)) in Hw.
  rewrite fields_app_sep in Hw by reflexivity.
  rewrite fields_app_word in Hw by (discriminate || reflexivity || exact Hrest).
  destruct (Py.fields Py.is_space a0) as [|w0 W] eqn:Ea.
  - exfalso. apply fields_nil_all in Ea.
    destruct ws as [|w ws]; [discriminate|].
    inversion Ht as [|? ? Hw0 _]; subst.
    pose proof (unwords_first_char w ws Hw0) as Hf. rewrite E in Hf.
    destruct a0 as [|c a0]; [discriminate|].
    simpl in Ea, Hf. rewrite Hf in Ea. discriminate.
  - rewrite <- Hw. cbn [app tl]. apply in_or_app. right. left. reflexivity.
Qed.

(** Without "by" after the first word, the first " by " of the line is
    the one that was written between track name and artist. *)
Lemma split_first_by ws a :
  Forall token ws -> ~ In (py "by") (tl ws) ->
  Py.split_first (py " by ") (unwords ws ++ py " by " ++ a) = Some (unwords ws, a).
Proof.
  intros Ht Hby.
  destruct (split_first_first (py " by ") (unwords ws) a _ eq_refl) as (a0 & b0 & E & Hlen).
  rewrite E. pose proof (split_first_Some _ _ _ _ E) as Hs.
  apply app_eq_app in Hs. destruct Hs as (l & [[E1 E2]|[E1 E2]]).
  - destruct l as [|c l]; [rewrite app_nil_r in E1; simpl in E2; congruence|].
    exfalso. change (py " by ") with (" "%char :: py "by ") in E2.
    injection E2 as <- E2.
    destruct l as [|c1 [|c2 [|c3 l]]]; cbn [app py list_ascii_of_string] in E2;
      try discriminate.
    + injection E2 as <- <- E2. apply Hby.
      apply (by_among_words ws a0 [] Ht); [rewrite E1; reflexivity | reflexivity].
    + injection E2 as <- <- <- E2. apply Hby.
      apply (by_among_words ws a0 (" "%char :: l) Ht); [rewrite E1; reflexivity | reflexivity].
  - assert (l = []) as ->.
    { destruct l; [reflexivity|]. rewrite E1, length_app in Hlen. simpl in Hlen. lia. }
    rewrite app_nil_r in E1. simpl in E2. congruence.
Qed.

(** With "by" after the first word, the line is split before the end of
    the track name. *)
Lemma split_first_by_early ws a :
  Forall token ws -> In (py "by") (tl ws) ->
  exists a0 b0, Py.split_first (py " by ") (unwords ws ++ py " by " ++ a) = Some (a0, b0)
                /\ length a0 < length (unwords ws).
Proof.
  intros Ht Hin. destruct ws as [|w0 W]; [destruct Hin|]. cbn [tl] in Hin.
  apply in_split in Hin. destruct Hin as (A & B & ->).
  change (w0 :: A ++ py "by" :: B) with ((w0 :: A) ++ (py "by" :: B)).
  rewrite unwords_app by discriminate.
  set (P := unwords (w0 :: A)).
  assert (Hline : exists rest,
             (P ++ py " " ++ unwords (py "by" :: B)) ++ py " by " ++ a
             = P ++ py " by " ++ rest).
  { destruct B as [|b B].
    - exists (py "by " ++ a). rewrite <- !app_assoc. reflexivity.
    - exists (unwords (b :: B) ++ py " by " ++ a).
      unfold unwords. rewrite (join_cons _ (py "by") (b :: B)) by discriminate.
      rewrite <- !app_assoc. reflexivity. }
  destruct Hline as (rest & Hline).
  destruct (split_first_first (py " by ") P rest _ Hline) as (a0 & b0 & E & Hlen).
  exists a0, b0. split; [exact E|].
  rewrite !length_app. simpl. lia.
Qed.

Lemma clean_filename_squeezed filename :
  exists ws, Forall token ws /\ clean_filename filename = unwords ws.
Proof.
  unfold clean_filename. rewrite depunct_collapse_strip.
  eexists. split; [apply words_tokens | reflexivity].
Qed.

(** ** Removing parenthesized and bracketed groups *)

Lemma re_group_parens : re_parens = re_group "("%char ")"%char.
Proof. reflexivity. Qed.

Lemma re_group_brackets : re_brackets = re_group "["%char "]"%char.
Proof. reflexivity. Qed.

Lemma sub_from_nil_sublist p r : forall k b,
  Re.sub_from p [] k b r `sublist_of` r.
Proof.
  induction r as [|c t IH]; intros k b.
  - simpl. destruct k; [destruct (p (b, []))|]; constructor.
  - cbn [Re.sub_from]. destruct k as [|k].
    + destruct (p (b, c :: t)) as [|[b' r'] l].
      * apply sublist_skip, IH.
      * destruct (length (c :: t) - length r'); cbn [app].
        -- apply sublist_skip, IH.
        -- apply sublist_cons, IH.
    + apply sublist_cons, IH.
Qed.

Lemma group_in_sublist opening closing (l1 l2 : str) :
  l1 `sublist_of` l2 -> group_in opening closing l1 -> group_in opening closing l2.
Proof.
  induction 1 as [|x l1 l2 Hs IH|x l1 l2 Hs IH]; intros (a & b & d & E).
  - destruct a; discriminate.
  - destruct a as [|y a]; cbn [app] in E; injection E as -> E.
    + assert (Hin : closing ∈ l2).
      { apply (elem_of_sublist l1); [|exact Hs]. rewrite E.
        apply elem_of_app. right. left. }
      apply list_elem_of_split in Hin. destruct Hin as (b' & d' & ->).
      exists [], b', d'. reflexivity.
    + destruct IH as (a' & b' & d' & ->); [exists a, b, d; exact E|].
      exists (y :: a'), b', d'. reflexivity.
  - destruct IH as (a' & b' & d' & ->); [exists a, b, d; exact E|].
    exists (x :: a'), b', d'. reflexivity.
Qed.

Lemma group_tail closing t : forall b,
  exists b',
    flat_map (Re.chr (Py.eqc closing))
      (Re.star_from (fun c => negb (Py.eqc closing c)) b t)
    = match Py.lstrip_by (fun c => negb (Py.eqc closing c)) t with
      | _ :: rest => [(b', rest)]
      | [] => []
      end.
Proof.
  induction t as [|y t IH]; intros b.
  - exists b. reflexivity.
  - cbn [Re.star_from Py.lstrip_by].
    destruct (Py.eqc closing y) eqn:Ey; cbn [negb].
    + exists (y :: b). unfold Re.chr. cbn [flat_map fst snd]. rewrite Ey. reflexivity.
    + destruct (IH (y :: b)) as (b' & E). exists b'.
      rewrite flat_map_app, E. cbn [flat_map]. unfold Re.chr at 1. cbn [fst snd].
      rewrite Ey. rewrite !app_nil_r. reflexivity.
Qed.

(** Where a group pattern matches, and where its first match ends. *)
Lemma re_group_at opening closing b r :
  exists b',
    re_group opening closing (b, r)
    = match r with
      | x :: t =>
          if Py.eqc opening x
          then match Py.lstrip_by (fun c => negb (Py.eqc closing c)) t with
               | _ :: rest => [(b', rest)]
               | [] => []
               end
          else []
      | [] => []
      end.
Proof.
  unfold re_group. unfold Re.seq at 1.
  destruct r as [|x t]; [exists b; reflexivity|].
  destruct (Py.eqc opening x) eqn:Ex.
  - replace (Re.chr (Py.eqc opening) (b, x :: t)) with [(x :: b, t)]
      by (unfold Re.chr; cbn [fst snd]; rewrite Ex; reflexivity).
    cbn [flat_map]. rewrite app_nil_r. unfold Re.seq, Re.star. cbn [fst snd].
    apply group_tail.
  - exists b. unfold Re.chr. cbn [fst snd]. rewrite Ex. reflexivity.
Qed.

Lemma skipn_after_lstrip_by p (t : str) y rest :
  Py.lstrip_by p t = y :: rest ->
  skipn (length t - length rest) t = rest /\ length rest < length t.
Proof.
  intros E. pose proof (skipn_lstrip_by p t) as H. pose proof (lstrip_by_length p t) as L.
  rewrite E in H, L. simpl in L.
  replace (length t - length rest) with (1 + (length t - length (y :: rest)))
    by (simpl; lia).
  rewrite <- skipn_skipn, H. split; [reflexivity | lia].
Qed.

Lemma sub_from_nil_end p k b : Re.sub_from p [] k b [] = [].
Proof. simpl. destruct k; [destruct (p (b, []))|]; reflexivity. Qed.

Lemma no_group_nil opening closing : ~ group_in opening closing [].
Proof. intros (a & b & d & E). destruct a; discriminate. Qed.

Lemma sub_group_no_group_len opening closing n : forall r b,
  length r <= n ->
  ~ group_in opening closing (Re.sub_from (re_group opening closing) [] 0 b r).
Proof.
  induction n as [|n IH]; intros r b Hn.
  - destruct r; [|simpl in Hn; lia]. rewrite sub_from_nil_end. apply no_group_nil.
  - destruct r as [|x t]; [rewrite sub_from_nil_end; apply no_group_nil|].
    simpl in Hn. cbn [Re.sub_from].
    destruct (re_group_at opening closing b (x :: t)) as (b' & ->).
    destruct (Py.eqc opening x) eqn:Ex.
    + destruct (Py.lstrip_by (fun c => negb (Py.eqc closing c)) t) as [|y rest] eqn:El.
      * apply eqc_eq in Ex. subst x.
        intros (a & b0 & d & E). destruct a as [|z a]; cbn [app] in E;
          [injection E as E | injection E as _ E].
        -- apply lstrip_by_nil_iff in El. rewrite forallb_forall in El.
           assert (Hin : In closing t).
           { apply list_elem_of_In.
             apply (elem_of_sublist
                      (Re.sub_from (re_group opening closing) [] 0 (opening :: b) t));
               [|apply sub_from_nil_sublist].
             rewrite E. apply elem_of_app. right. left. }
           specialize (El _ Hin). rewrite eqc_refl in El. discriminate.
        -- apply (IH t (opening :: b) ltac:(lia)). exists a, b0, d. exact E.
      * destruct (skipn_after_lstrip_by _ t y rest El) as (Hsk & Hlt).
        replace (length (x :: t) - length rest) with (S (length t - length rest))
          by (simpl; lia).
        cbn [app]. rewrite sub_from_skip by lia. rewrite Hsk.
        apply IH. lia.
    + intros (a & b0 & d & E). destruct a as [|z a]; cbn [app] in E; injection E as E1 E.
      * subst x. rewrite eqc_refl in Ex. discriminate.
      * apply (IH t (x :: b) ltac:(lia)). exists a, b0, d. exact E.
Qed.

Lemma sub_group_no_group opening closing s :
  ~ group_in opening closing (Re.sub (re_group opening closing) [] s).
Proof. apply (sub_group_no_group_len opening closing (length s)). lia. Qed.

Lemma strip_sublist s : Py.strip s `sublist_of` s.
Proof.
  assert (Hl : forall p u, Py.lstrip_by p u `sublist_of` u).
  { intros p u. induction u as [|c u IH]; simpl; [constructor|].
    destruct (p c); [apply sublist_cons, IH | reflexivity]. }
  assert (Hr : forall p u, Py.rstrip_by p u `sublist_of` u).
  { intros p u. destruct (rstrip_by_decomp p u) as (tl & E & _).
    rewrite E at 2. apply sublist_inserts_r. reflexivity. }
  unfold Py.strip. etransitivity; [apply Hr | apply Hl].
Qed.

(** X9.  The name that [clean_filename] of music_extractor.py returns
    holds no parenthesized and no bracketed group (no "(" with a ")"
    after it, no "[" with a "]" after it) and no whitespace at its ends. *)
Theorem extractor_clean_filename_no_groups filename :
  ~ group_in "("%char ")"%char (MusicExtractor.clean_filename filename) /\
  ~ group_in "["%char "]"%char (MusicExtractor.clean_filename filename) /\
  Py.strip (MusicExtractor.clean_filename filename)
  = MusicExtractor.clean_filename filename.
Proof.
  unfold MusicExtractor.clean_filename. rewrite re_group_parens, re_group_brackets.
  split; [|split].
  - intros H. apply (sub_group_no_group "("%char ")"%char (Py.splitext_root filename)).
    eapply group_in_sublist; [|exact H].
    etransitivity; [apply strip_sublist | apply sub_from_nil_sublist].
  - intros H. eapply sub_group_no_group.
    eapply group_in_sublist; [apply strip_sublist | exact H].
  - apply strip_idem.
Qed.

(** X10.  The name that [clean_filename] of music_manager.py returns is
    a sequence of words joined by single spaces: it holds nothing but word
    characters and spaces, and no whitespace at its ends. *)
Theorem clean_filename_words filename :
  (exists ws, Forall token ws /\ clean_filename filename = unwords ws) /\
  forallb (fun c => Py.is_word c || Py.eqc " "%char c) (clean_filename filename) = true /\
  Py.strip (clean_filename filename) = clean_filename filename.
Proof.
  destruct (clean_filename_squeezed filename) as (ws & Ht & E).
  split; [eauto|]. rewrite E. split; [|apply strip_unwords; exact Ht].
  clear E. induction Ht as [|w ws [_ Hw] Hws IH]; [reflexivity|].
  assert (Hw' : forallb (fun c => Py.is_word c || Py.eqc " "%char c) w = true).
  { rewrite forallb_forall in *. intros c Hc. rewrite (Hw c Hc). reflexivity. }
  destruct ws as [|w' ws]; [exact Hw'|].
  unfold unwords in *. rewrite join_cons by discriminate.
  rewrite !forallb_app, Hw', IH. reflexivity.
Qed.

(** ** Placeholder tracks of a playlist *)

Lemma lit_ignorecase_spec m : forall b r,
  exists b',
    lit_ignorecase m (b, r)
    = match drop_prefix_ignorecase m r with
      | Some r' => [(b', r')]
      | None => []
      end.
Proof.
  induction m as [|x m IH]; intros b r.
  - exists b. destruct r; reflexivity.
  - cbn [lit_ignorecase drop_prefix_ignorecase]. unfold Re.seq, chr_ignorecase, Re.chr.
    cbn [fst snd]. destruct r as [|y r]; [exists b; reflexivity|].
    destruct (Py.eqc (Py.lower_char y) (Py.lower_char x)); [|exists b; reflexivity].
    cbn [flat_map]. rewrite app_nil_r. apply IH.
Qed.

Lemma drop_prefix_ignorecase_Some m : forall r r',
  drop_prefix_ignorecase m r = Some r' <->
  exists t, r = t ++ r' /\ Py.lower t = Py.lower m.
Proof.
  induction m as [|x m IH]; intros r r'.
  - split.
    + intros H. exists []. destruct r; injection H as <-; split; reflexivity.
    + intros (t & -> & Ht). destruct t; [|discriminate]. destruct r'; reflexivity.
  - cbn [drop_prefix_ignorecase]. destruct r as [|y r].
    + split; [discriminate|]. intros (t & E & Ht).
      destruct t; [discriminate|]. discriminate.
    + destruct (Py.eqc (Py.lower_char y) (Py.lower_char x)) eqn:Ey.
      * apply eqc_eq in Ey. rewrite IH. split.
        -- intros (t & -> & Ht). exists (y :: t). split; [reflexivity|].
           unfold Py.lower in *. cbn [map]. rewrite Ey, Ht. reflexivity.
        -- intros (t & E & Ht). destruct t as [|z t]; [discriminate|].
           injection E as <- ->. injection Ht as _ Ht. eauto.
      * split; [discriminate|]. intros (t & E & Ht).
        destruct t as [|z t]; [discriminate|]. injection E as <- _.
        injection Ht as Ht _. rewrite Ht, eqc_refl in Ey. discriminate.
Qed.

Lemma search_from_spec p r : forall b,
  search_from p b r = true <->
  exists pre post, r = pre ++ post /\ p (rev pre ++ b, post) <> [].
Proof.
  induction r as [|c t IH]; intros b; cbn [search_from].
  - destruct (p (b, [])) eqn:E.
    + split; [discriminate|]. intros (pre & post & E' & H).
      destruct pre; [|discriminate]. destruct post; [|discriminate].
      simpl in H. congruence.
    + split; [|reflexivity]. intros _. exists [], []. split; [reflexivity|].
      simpl. rewrite E. discriminate.
  - destruct (p (b, c :: t)) eqn:E.
    + rewrite IH. split.
      * intros (pre & post & -> & H). exists (c :: pre), post. split; [reflexivity|].
        cbn [rev]. rewrite <- app_assoc. exact H.
      * intros (pre & post & E' & H). destruct pre as [|z pre].
        -- simpl in E', H. subst post. congruence.
        -- injection E' as <- ->. exists pre, post. split; [reflexivity|].
           cbn [rev] in H. rewrite <- app_assoc in H. exact H.
    + split; [|reflexivity]. intros _. exists [], (c :: t). split; [reflexivity|].
      simpl. rewrite E. discriminate.
Qed.

Lemma lstrip_by_app_all p sp : forall v,
  forallb p sp = true -> Py.lstrip_by p (sp ++ v) = Py.lstrip_by p v.
Proof.
  induction sp as [|c sp IH]; intros v H; [reflexivity|].
  simpl in H. apply andb_true_iff in H. destruct H as [Hc H].
  simpl. rewrite Hc. apply IH. exact H.
Qed.

Lemma re_track_numbered_at b r :
  re_track_numbered (b, r) <> [] <->
  exists t5 sp d post,
    r = t5 ++ sp ++ d :: post /\ Py.lower t5 = py "track" /\
    sp <> [] /\ forallb Py.is_space sp = true /\ Py.is_digit d = true.
Proof.
  unfold re_track_numbered. unfold Re.seq at 1.
  destruct (lit_ignorecase_spec (py "Track") b r) as (b1 & ->).
  destruct (drop_prefix_ignorecase (py "Track") r) as [r1|] eqn:Ed.
  - apply drop_prefix_ignorecase_Some in Ed. destruct Ed as (t5 & -> & Ht).
    change (Py.lower (py "Track")) with (py "track") in Ht.
    cbn [flat_map]. rewrite app_nil_r. split.
    + intros H. destruct (Re.seq _ _ (b1, r1)) as [|[b3 r3] l] eqn:E; [congruence|].
      assert (Hin : In (b3, r3) (Re.seq (Re.plus Py.is_space) (Re.plus Py.is_digit) (b1, r1)))
        by (rewrite E; left; reflexivity).
      unfold Re.seq in Hin. apply in_flat_map in Hin. destruct Hin as ([b2 r2] & Hs & Hd).
      apply plus_in in Hs. destruct Hs as (sp & Hsp & -> & Hsp').
      apply plus_in in Hd. destruct Hd as (dg & Hdg & -> & Hdg').
      destruct dg as [|d dg]; [congruence|]. simpl in Hdg'.
      apply andb_true_iff in Hdg'.
      exists t5, sp, d, (dg ++ r3). repeat split; try tauto.
    + intros (t5' & sp & d & post & E & Ht' & Hsp & Hsp' & Hd).
      assert (E1 : r1 = sp ++ d :: post).
      { assert (Hlen : length t5 = length t5').
        { apply (f_equal (@length _)) in Ht, Ht'. unfold Py.lower in Ht, Ht'.
          rewrite length_map in Ht, Ht'. congruence. }
        apply (f_equal (skipn (length t5))) in E.
        rewrite skipn_app, skipn_all, Nat.sub_diag in E. simpl in E.
        rewrite Hlen, skipn_app, skipn_all, Nat.sub_diag in E. simpl in E. exact E. }
      subst r1. destruct sp as [|s0 sp]; [congruence|]. simpl in Hsp'.
      apply andb_true_iff in Hsp'. destruct Hsp' as [Hs0 Hsp'].
      assert (Hnd : Py.is_space d = false).
      { destruct (Py.is_space d) eqn:Es; [|reflexivity].
        apply space_not_word in Es. apply digit_is_word in Hd. congruence. }
      cbn [app].
      destruct (plus_hd Py.is_space s0 (sp ++ d :: post) b1 Hs0) as (b2 & l2 & E2).
      rewrite lstrip_by_app_all, lstrip_by_id in E2 by (assumption || (simpl; exact Hnd)).
      destruct (plus_hd Py.is_digit d post b2 Hd) as (b3 & l3 & E3).
      rewrite (seq_cons _ _ _ _ _ E2), E3. discriminate.
  - split; [intros H; contradiction H; reflexivity|].
    intros (t5 & sp & d & post & -> & Ht & _).
    assert (Hsome : drop_prefix_ignorecase (py "Track") (t5 ++ sp ++ d :: post)
                    = Some (sp ++ d :: post)).
    { apply drop_prefix_ignorecase_Some. exists t5. split; [reflexivity | exact Ht]. }
    congruence.
Qed.

Lemma search_track_numbered name :
  search re_track_numbered name = true <-> numbered_track_name name.
Proof.
  unfold search, numbered_track_name. rewrite search_from_spec. split.
  - intros (pre & post & -> & H). apply re_track_numbered_at in H.
    destruct H as (t5 & sp & d & post' & -> & H). exists pre, t5, sp, d, post'. tauto.
  - intros (pre & t5 & sp & d & post & -> & H).
    exists pre, (t5 ++ sp ++ d :: post). split; [reflexivity|].
    apply re_track_numbered_at. exists t5, sp, d, post. tauto.
Qed.

(** X11.  [get_tracks_to_remove] returns the id of a playlist item
    exactly when the item has a track whose name holds, somewhere, "track"
    in any letter case followed by whitespace and a digit; the ids come in
    playlist order. *)
Theorem get_tracks_to_remove_spec tracks :
  (forall id, In id (get_tracks_to_remove tracks) <->
     exists t, In (Some t) tracks /\ track_id t = id /\ numbered_track_name (track_name t)) /\
  get_tracks_to_remove tracks
    `sublist_of` omap (fun o => track_id <$> o) tracks.
Proof.
  split.
  - intros id. induction tracks as [|[t|] tracks IH]; cbn [get_tracks_to_remove In].
    + split; [intros [] | intros (t & [] & _)].
    + destruct (search re_track_numbered (track_name t)) eqn:Es.
      * apply search_track_numbered in Es. cbn [In]. rewrite IH. split.
        -- intros [<-|(t' & Hin & E)]; [exists t; tauto | exists t'; tauto].
        -- intros (t' & [E|Hin] & Hid & Hn);
             [injection E as ->; left; exact Hid | right; exists t'; tauto].
      * rewrite IH. split.
        -- intros (t' & Hin & E). exists t'. tauto.
        -- intros (t' & [E|Hin] & Hid & Hn); [|exists t'; tauto].
           injection E as ->. apply search_track_numbered in Hn. congruence.
    + rewrite IH. split.
      * intros (t' & Hin & E). exists t'. tauto.
      * intros (t' & [E|Hin] & E'); [discriminate | exists t'; tauto].
  - induction tracks as [|[t|] tracks IH]; cbn [get_tracks_to_remove omap].
    + constructor.
    + cbn. destruct (search re_track_numbered (track_name t));
        [apply sublist_skip | apply sublist_cons]; exact IH.
    + cbn. exact IH.
Qed.

(** ** The main loop of add_unmatched_songs.py *)

Lemma try_queries_made search_track queries : forall made track_id,
  exists k,
    snd (try_queries search_track made track_id queries) = made ++ firstn k queries.
Proof.
  induction queries as [|q queries IH]; intros made track_id; cbn [try_queries].
  - exists 0. rewrite app_nil_r. reflexivity.
  - destruct (truthy (search_track made q)).
    + exists 1. reflexivity.
    + destruct (IH (made ++ [q]) (search_track made q)) as (k & ->).
      exists (S k). rewrite <- app_assoc. reflexivity.
Qed.

Lemma process_lines_spec search_track lines : forall st0,
  exists F N Q,
    found_tracks (process_lines search_track st0 lines) = found_tracks st0 ++ F /\
    not_found_tracks (process_lines search_track st0 lines) = not_found_tracks st0 ++ N /\
    queries_made (process_lines search_track st0 lines) = queries_made st0 ++ Q /\
    length F + length N = length (filter searched_line lines) /\
    N `sublist_of` (Py.strip <$> filter searched_line lines) /\
    (F = [] -> N = Py.strip <$> filter searched_line lines) /\
    forall q, In q Q ->
      exists line, In line lines /\ searched_line line /\
        In q (generate_search_queries (fst (parse_song_line (Py.strip line)))
                                      (snd (parse_song_line (Py.strip line)))).
Proof.
  induction lines as [|line lines IH]; intros st0.
  - exists [], [], []. cbn. rewrite !app_nil_r. repeat split; try reflexivity.
    intros q [].
  - cbn [process_lines]. rewrite filter_cons.
    destruct (decide (searched_line line)) as [Hs|Hs]; unfold searched_line in Hs.
    + destruct Hs as [Hne Hp]. destruct (Py.strip line) as [|c t] eqn:El; [congruence|].
      destruct (parse_song_line (c :: t)) as [title artists] eqn:Ep. cbn [fst snd] in Hp.
      rewrite Hp.
      destruct (try_queries_made search_track (generate_search_queries title artists)
                  (queries_made st0) None) as (k & Hk).
      destruct (try_queries search_track (queries_made st0) None
                  (generate_search_queries title artists)) as [tid made] eqn:Et.
      cbn [snd] in Hk. subst made.
      assert (Hq : forall q, In q (firstn k (generate_search_queries title artists)) ->
                 exists l, In l (line :: lines) /\ searched_line l /\
                   In q (generate_search_queries (fst (parse_song_line (Py.strip l)))
                                                 (snd (parse_song_line (Py.strip l))))).
      { intros q Hin. exists line. split; [left; reflexivity|].
        unfold searched_line. rewrite El, Ep. cbn [fst snd].
        split; [split; [discriminate | exact Hp]|].
        rewrite <- (firstn_skipn k (generate_search_queries title artists)).
        apply in_or_app. left. exact Hin. }
      destruct tid as [[|c' id]|];
        match goal with
        | |- context [process_lines _ ?st lines] =>
            destruct (IH st) as (F & N & Q & HF & HN & HQ & Hlen & Hsub & Hnil & HQin)
        end; cbn [found_tracks not_found_tracks queries_made] in HF, HN, HQ.
      * exists F, ((c :: t) :: N), (firstn k (generate_search_queries title artists) ++ Q).
        rewrite HF, HN, HQ, <- !app_assoc, fmap_cons, El.
        repeat split; try reflexivity.
        -- simpl. lia.
        -- apply sublist_skip. exact Hsub.
        -- intros HFn. rewrite (Hnil HFn). reflexivity.
        -- intros q Hin. apply in_app_or in Hin. destruct Hin as [Hin|Hin]; [auto|].
           destruct (HQin q Hin) as (l & Hl & H). exists l. split; [right; exact Hl | exact H].
      * exists ((c' :: id) :: F), N, (firstn k (generate_search_queries title artists) ++ Q).
        rewrite HF, HN, HQ, <- !app_assoc, fmap_cons, El.
        repeat split; try reflexivity.
        -- simpl. lia.
        -- apply sublist_cons. exact Hsub.
        -- discriminate.
        -- intros q Hin. apply in_app_or in Hin. destruct Hin as [Hin|Hin]; [auto|].
           destruct (HQin q Hin) as (l & Hl & H). exists l. split; [right; exact Hl | exact H].
      * exists F, ((c :: t) :: N), (firstn k (generate_search_queries title artists) ++ Q).
        rewrite HF, HN, HQ, <- !app_assoc, fmap_cons, El.
        repeat split; try reflexivity.
        -- simpl. lia.
        -- apply sublist_skip. exact Hsub.
        -- intros HFn. rewrite (Hnil HFn). reflexivity.
        -- intros q Hin. apply in_app_or in Hin. destruct Hin as [Hin|Hin]; [auto|].
           destruct (HQin q Hin) as (l & Hl & H). exists l. split; [right; exact Hl | exact H].
    + assert (Hskip : process_lines search_track st0 (line :: lines)
                      = process_lines search_track st0 lines).
      { cbn [process_lines]. destruct (Py.strip line) as [|c t] eqn:El; [reflexivity|].
        destruct (parse_song_line (c :: t)) as [title artists] eqn:Ep.
        destruct (is_track_number title) eqn:Ei; [reflexivity|].
        exfalso. apply Hs. split; [discriminate | exact Ei]. }
      cbn [process_lines] in Hskip. rewrite Hskip.
      destruct (IH st0) as (F & N & Q & HF & HN & HQ & Hlen & Hsub & Hnil & HQin).
      exists F, N, Q. repeat split; try assumption.
      intros q Hin. destruct (HQin q Hin) as (l & Hl & H).
      exists l. split; [right; exact Hl | exact H].
Qed.

(** X12.  Whatever the catalog answers, the main loop puts every line it
    searches for (not blank, title no placeholder) either among the found
    tracks or among the lines not found; the lines not found are trimmed
    lines of the file in their order; and every query made comes from the
    title and artists of a searched line: no query is made for a blank or
    placeholder line. *)
Theorem process_lines_partition search_track lines :
  let st := process_lines search_track (Progress [] [] []) lines in
  length (found_tracks st) + length (not_found_tracks st)
    = length (filter searched_line lines) /\
  not_found_tracks st `sublist_of` (Py.strip <$> filter searched_line lines) /\
  forall q, In q (queries_made st) ->
    exists line, In line lines /\ searched_line line /\
      In q (generate_search_queries (fst (parse_song_line (Py.strip line)))
                                    (snd (parse_song_line (Py.strip line)))).
Proof.
  cbv zeta.
  destruct (process_lines_spec search_track lines (Progress [] [] []))
    as (F & N & Q & -> & -> & -> & Hlen & Hsub & _ & HQ).
  cbn [found_tracks not_found_tracks queries_made app]. auto.
Qed.

Lemma try_queries_none queries : forall made track_id,
  truthy track_id = false ->
  truthy (fst (try_queries (fun _ _ => None) made track_id queries)) = false.
Proof.
  induction queries as [|q queries IH]; intros made track_id H; cbn [try_queries truthy].
  - exact H.
  - apply IH. reflexivity.
Qed.

Lemma process_lines_none lines : forall st0,
  found_tracks (process_lines (fun _ _ => None) st0 lines) = found_tracks st0.
Proof.
  induction lines as [|line lines IH]; intros st0; [reflexivity|].
  cbn [process_lines]. destruct (Py.strip line) as [|c t]; [apply IH|].
  destruct (parse_song_line (c :: t)) as [title artists].
  destruct (is_track_number title); [apply IH|].
  pose proof (try_queries_none (generate_search_queries title artists)
                (queries_made st0) None eq_refl) as H.
  destruct (try_queries _ _ _ _) as [tid made]. cbn [fst] in H.
  destruct tid as [[|c' id]|]; try discriminate; rewrite IH; reflexivity.
Qed.

Lemma written_back_lines st :
  written_back st
  = concat (map (fun l => l ++ [Py.newline]) (not_found_tracks st)).
Proof.
  unfold written_back. induction (not_found_tracks st) as [|l ls IH]; [reflexivity|].
  destruct ls as [|l' ls].
  - simpl. rewrite app_nil_r. reflexivity.
  - rewrite join_cons by discriminate. cbn [map concat] in *.
    rewrite <- IH, <- !app_assoc. reflexivity.
Qed.

(** X13.  When the catalog finds nothing, the file is rewritten with the
    lines that were searched for, trimmed and each followed by one line
    feed: its blank lines and its placeholder-titled lines are gone. *)
Theorem nothing_found_written_back lines :
  let st := process_lines (fun _ _ => None) (Progress [] [] []) lines in
  found_tracks st = [] /\
  not_found_tracks st = Py.strip <$> filter searched_line lines /\
  written_back st
  = concat (map (fun l => l ++ [Py.newline]) (Py.strip <$> filter searched_line lines)).
Proof.
  cbv zeta. rewrite written_back_lines.
  pose proof (process_lines_none lines (Progress [] [] [])) as Hf.
  destruct (process_lines_spec (fun _ _ => None) lines (Progress [] [] []))
    as (F & N & Q & HF & HN & _ & _ & _ & Hnil & _).
  cbn [found_tracks not_found_tracks app] in *.
  rewrite HF in Hf. rewrite HF, HN, (Hnil Hf), Hf. auto.
Qed.

(** ** The characters of the queries *)

Lemma fields_incl sep s w : In w (Py.fields sep s) -> incl w s.
Proof.
  revert w. induction s as [|x t IH]; intros w Hin; [destruct Hin|].
  cbn [Py.fields] in Hin. destruct (sep x).
  - intros c Hc. right. exact (IH w Hin c Hc).
  - destruct (Py.starts_with _ t).
    + destruct (Py.fields sep t) as [|w0 ws]; cbn [Py.cons_head] in Hin.
      * destruct Hin as [<-|[]]. intros c [<-|[]]. left. reflexivity.
      * destruct Hin as [<-|Hin].
        -- intros c [<-|Hc]; [left; reflexivity | right; apply (IH w0); [left; reflexivity | exact Hc]].
        -- intros c Hc. right. apply (IH w); [right; exact Hin | exact Hc].
    + destruct Hin as [<-|Hin].
      * intros c [<-|[]]. left. reflexivity.
      * intros c Hc. right. exact (IH w Hin c Hc).
Qed.

Lemma unwords_forallb (P : ascii -> bool) ws :
  P " "%char = true ->
  Forall (fun w => forallb P w = true) ws -> forallb P (unwords ws) = true.
Proof.
  intros Hsp. induction 1 as [|w ws Hw Hws IH]; [reflexivity|].
  destruct ws as [|w' ws]; [exact Hw|].
  unfold unwords in *. rewrite join_cons by discriminate.
  rewrite !forallb_app, Hw, IH. cbn. rewrite Hsp. reflexivity.
Qed.

Lemma clean_for_search_clean_words x :
  exists ws, Forall token ws /\ Forall (fun w => forallb clean_char w = true) ws /\
             clean_for_search x = unwords ws.
Proof.
  unfold clean_for_search. rewrite depunct_collapse_strip. unfold squeeze.
  set (z := Re.sub re_feat [] (Py.lower x)).
  exists (words z). split; [apply words_tokens|]. split; [|reflexivity].
  pose proof (words_tokens z) as Ht.
  apply List.Forall_forall. intros w Hw.
  rewrite List.Forall_forall in Ht. destruct (Ht w Hw) as [_ Hword].
  rewrite forallb_forall in *. intros c Hc. unfold clean_char.
  rewrite (Hword c Hc). cbn [andb].
  assert (Hz : In c (Py.lower x)).
  { apply list_elem_of_In.
    apply (elem_of_sublist z); [|apply sub_from_nil_sublist].
    apply list_elem_of_In. exact (fields_incl _ _ _ Hw c Hc). }
  unfold Py.lower in Hz. apply in_map_iff in Hz. destruct Hz as (c0 & <- & _).
  rewrite lower_char_idem, eqc_refl. reflexivity.
Qed.

Lemma filter_Forall (P : str -> Prop) (f : str -> bool) ws :
  Forall P ws -> Forall P (List.filter f ws).
Proof.
  induction 1 as [|w ws Hw Hws IH]; simpl; [constructor|].
  destruct (f w); [constructor|]; assumption.
Qed.

(** X14.  [generate_search_queries] returns two, three or four queries,
    and each is made of lowercase word characters and spaces only. *)
Theorem generate_search_queries_clean title artists :
  2 <= length (generate_search_queries title artists) <= 4 /\
  Forall (fun q => forallb clean_char q = true) (generate_search_queries title artists).
Proof.
  rewrite generate_search_queries_shape.
  destruct (clean_for_search_clean_words title) as (ws & Ht & Hc & ->).
  destruct (clean_for_search_clean_words artists) as (wa & Hta & Hca & ->).
  rewrite (split_ws_unwords ws Ht).
  pose proof (unwords_forallb clean_char ws eq_refl Hc) as HT.
  pose proof (unwords_forallb clean_char wa eq_refl Hca) as HA.
  assert (H1 : forallb clean_char (unwords ws ++ py " " ++ unwords wa) = true)
    by (rewrite !forallb_app, HT, HA; reflexivity).
  assert (H3 : Forall (fun q => forallb clean_char q = true)
                 match Py.split_first (py " _ ") (unwords wa) with
                 | Some (first_artist, _) => [unwords ws ++ py " " ++ first_artist]
                 | None => []
                 end).
  { destruct (Py.split_first (py " _ ") (unwords wa)) as [[F R]|] eqn:Es; [|constructor].
    apply split_first_Some in Es. rewrite Es, forallb_app in HA.
    apply andb_true_iff in HA. constructor; [|constructor].
    rewrite !forallb_app, HT, (proj1 HA). reflexivity. }
  assert (H4 : Forall (fun q => forallb clean_char q = true)
                 match List.filter not_article ws with
                 | [] => []
                 | w :: fw => [Py.join (py " ") (w :: fw) ++ py " " ++ unwords wa]
                 end).
  { pose proof (unwords_forallb clean_char _ eq_refl (filter_Forall _ not_article ws Hc)) as HF.
    destruct (List.filter not_article ws); constructor; [|constructor].
    unfold unwords in HF. rewrite !forallb_app, HF, HA. reflexivity. }
  split.
  - rewrite !length_app.
    destruct (Py.split_first (py " _ ") (unwords wa)) as [[F R]|];
      destruct (Nat.ltb 2 (length ws)); try destruct (List.filter not_article ws);
      simpl; lia.
  - apply Forall_app. split; [repeat constructor; assumption|].
    apply Forall_app. split; [exact H3|].
    destruct (Nat.ltb 2 (length ws)); [exact H4 | constructor].
Qed.

(** ** When two lines have the same key *)

Lemma rstrip_unwords ws :
  Forall token ws -> Py.rstrip_by Py.is_space (unwords ws) = unwords ws.
Proof.
  intros H. pose proof (strip_unwords ws H) as E. unfold Py.strip in E.
  rewrite lstrip_by_id in E; [exact E|].
  destruct H as [|w ws Hw _]; [reflexivity | apply unwords_first_char; exact Hw].
Qed.

Lemma unwords_no_space_end ws u :
  Forall token ws -> unwords ws <> u ++ py " ".
Proof.
  intros H E. pose proof (rstrip_unwords ws H) as R. rewrite E in R.
  change (py " ") with [" "%char] in R.
  rewrite rstrip_by_app_last in R by reflexivity.
  pose proof (rstrip_by_length Py.is_space u) as L. rewrite R in L.
  rewrite length_app in L. simpl in L. lia.
Qed.

Lemma unwords_inj ws ws' :
  Forall token ws -> Forall token ws' -> unwords ws = unwords ws' -> ws = ws'.
Proof.
  intros H H' E. apply (f_equal words) in E.
  rewrite !words_unwords in E by assumption. exact E.
Qed.

Lemma normalize_title_key_words x :
  normalize_title x = unwords (key_words x) ++ (if suffix_cut x then py " " else []).
Proof.
  rewrite normalize_title_truncate. unfold squeeze, suffix_cut, key_words.
  rewrite truncate_unwords by apply words_tokens.
  destruct (existsb is_marker (words (Py.lower x))) eqn:E; cbn [andb].
  - destruct (before_marker (words (Py.lower x))); [reflexivity | reflexivity].
  - rewrite before_marker_no_marker by exact E. rewrite app_nil_r. reflexivity.
Qed.

(** X15.  Two texts have the same [normalize_title] key exactly when
    they have the same lowercase words before the first featuring marker
    and either both or neither had a featuring suffix cut off after such
    words; letter case, punctuation and the amount of whitespace play no
    part. *)
Theorem normalize_title_same_key x y :
  normalize_title x = normalize_title y <->
  key_words x = key_words y /\ suffix_cut x = suffix_cut y.
Proof.
  rewrite !normalize_title_key_words.
  assert (Hx : Forall token (key_words x)) by apply before_marker_tokens, words_tokens.
  assert (Hy : Forall token (key_words y)) by apply before_marker_tokens, words_tokens.
  split.
  - intros E. destruct (suffix_cut x), (suffix_cut y).
    + apply app_inv_tail in E. split; [apply unwords_inj; assumption | reflexivity].
    + rewrite app_nil_r in E. symmetry in E.
      exfalso. exact (unwords_no_space_end _ _ Hy E).
    + rewrite app_nil_r in E. exfalso. exact (unwords_no_space_end _ _ Hx E).
    + rewrite !app_nil_r in E. split; [apply unwords_inj; assumption | reflexivity].
  - intros [-> ->]. reflexivity.
Qed.

(** ** The line of unmatched_songs.txt as the main loop reads it *)

Lemma forallb_rev_true (p : ascii -> bool) l : forallb p l = true -> forallb p (rev l) = true.
Proof.
  rewrite !forallb_forall. intros H x Hx. apply H, in_rev. exact Hx.
Qed.

Lemma rstrip_by_app_all p u sp :
  forallb p sp = true -> Py.rstrip_by p (u ++ sp) = Py.rstrip_by p u.
Proof.
  intros H. unfold Py.rstrip_by.
  rewrite rev_app_distr, lstrip_by_app_all by (apply forallb_rev_true; exact H).
  reflexivity.
Qed.

Lemma rstrip_by_app_keep p u v :
  Py.rstrip_by p v <> [] -> Py.rstrip_by p (u ++ v) = u ++ Py.rstrip_by p v.
Proof.
  intros H. induction u as [|c u IH]; [reflexivity|].
  cbn [app]. rewrite rstrip_by_cons, IH.
  destruct (u ++ Py.rstrip_by p v) as [|y r] eqn:E; [|reflexivity].
  apply app_eq_nil in E. destruct E as [_ E]. contradiction.
Qed.

Lemma lstrip_by_app_keep p u v :
  forallb p u = false -> Py.lstrip_by p (u ++ v) = Py.lstrip_by p u ++ v.
Proof.
  induction u as [|c u IH]; [discriminate|].
  cbn [forallb app Py.lstrip_by]. destruct (p c); [exact IH | reflexivity].
Qed.

Lemma lstrip_by_decomp p s :
  exists pre, s = pre ++ Py.lstrip_by p s /\ forallb p pre = true.
Proof.
  induction s as [|c t (pre & E & H)]; [exists []; split; reflexivity|].
  cbn [Py.lstrip_by]. destruct (p c) eqn:Hc.
  - exists (c :: pre). cbn [app forallb]. rewrite Hc, H, <- E. split; reflexivity.
  - exists []. split; reflexivity.
Qed.

(** Only a text of whitespace is trimmed to nothing. *)
Lemma strip_blank s : Py.strip s = [] <-> forallb Py.is_space s = true.
Proof.
  unfold Py.strip. split.
  - intros H. apply lstrip_by_nil_iff.
    destruct (rstrip_by_decomp Py.is_space (Py.lstrip_by Py.is_space s)) as (tl & E & Hp).
    rewrite H in E. cbn [app] in E.
    pose proof (lstrip_by_starts Py.is_space s) as Hs. rewrite E in *.
    destruct tl as [|c tl]; [reflexivity|].
    cbn [Py.starts_with forallb] in Hs, Hp. rewrite Hs in Hp. discriminate.
  - intros H. apply lstrip_by_nil_iff in H. rewrite H. reflexivity.
Qed.

Lemma strip_app_spaces u sp :
  forallb Py.is_space sp = true -> Py.strip (u ++ sp) = Py.strip u.
Proof.
  intros H. destruct (forallb Py.is_space u) eqn:Hu.
  - assert (Hb : forallb Py.is_space (u ++ sp) = true)
      by (rewrite forallb_app, Hu, H; reflexivity).
    apply strip_blank in Hu, Hb. congruence.
  - unfold Py.strip. rewrite lstrip_by_app_keep by exact Hu.
    apply rstrip_by_app_all. exact H.
Qed.

Lemma rstrip_nonblank s : Py.strip s <> [] -> Py.rstrip_by Py.is_space s <> [].
Proof.
  intros H E. apply H. apply strip_blank.
  destruct (rstrip_by_decomp Py.is_space s) as (tl & Es & Hp).
  rewrite E in Es. cbn [app] in Es. rewrite Es. exact Hp.
Qed.

Lemma strip_rstrip s : Py.strip (Py.rstrip_by Py.is_space s) = Py.strip s.
Proof.
  destruct (rstrip_by_decomp Py.is_space s) as (tl & Es & Hp).
  rewrite Es at 2. rewrite strip_app_spaces by exact Hp. reflexivity.
Qed.

(** A text that begins with a character that is no whitespace and ends
    with a text that is not blank is trimmed at its end only. *)
Lemma strip_app_nonblank c u v :
  Py.is_space c = false -> Py.strip v <> [] ->
  Py.strip (c :: u ++ v) = c :: u ++ Py.rstrip_by Py.is_space v.
Proof.
  intros Hc Hv. unfold Py.strip. cbn [Py.lstrip_by]. rewrite Hc.
  change (c :: u ++ v) with ((c :: u) ++ v).
  apply rstrip_by_app_keep, rstrip_nonblank. exact Hv.
Qed.

Lemma unwords_head w ws :
  token w -> exists c u, unwords (w :: ws) = c :: u /\ Py.is_space c = false.
Proof.
  intros Hw. pose proof (unwords_first_char w ws Hw) as H.
  pose proof (unwords_starts w ws Hw) as H'.
  destruct (unwords (w :: ws)) as [|c u]; [discriminate|].
  exists c, u. split; [reflexivity | exact H].
Qed.

(** With an empty track name the stripped line begins with "by", and its
    title is not empty. *)
Lemma parse_song_line_by_first a :
  fst (parse_song_line (Py.strip (py " by " ++ a))) <> [].
Proof.
  assert (E : exists R, Py.strip (py " by " ++ a) = "b"%char :: R).
  { unfold Py.strip. cbn [py list_ascii_of_string app Py.lstrip_by].
    change (Py.is_space " "%char) with true. change (Py.is_space "b"%char) with false.
    cbv iota. rewrite rstrip_by_cons_keep by reflexivity. eauto. }
  destruct E as (R & ->). unfold parse_song_line.
  destruct (Py.split_first (py " by ") ("b"%char :: R)) as [[before after]|] eqn:Es;
    cbn [fst]; [|discriminate].
  apply split_first_Some in Es. intros Hb. apply strip_blank in Hb.
  destruct before as [|c before]; [discriminate Es|].
  cbn [app] in Es. injection Es as <- _. discriminate Hb.
Qed.

(** With a blank artist name the stripped line ends with " by", and its
    title is not the track name. *)
Lemma parse_song_line_by_last c u a :
  Py.is_space c = false -> Py.strip a = [] ->
  fst (parse_song_line (Py.strip ((c :: u) ++ py " by " ++ a))) <> c :: u.
Proof.
  intros Hc Ha. apply strip_blank in Ha.
  change ((c :: u) ++ py " by " ++ a) with ((c :: u) ++ py " by" ++ (py " " ++ a)).
  rewrite app_assoc.
  rewrite strip_app_spaces by (cbn [py list_ascii_of_string app forallb]; exact Ha).
  cbn [app]. rewrite strip_app_nonblank by (exact Hc || (vm_compute; discriminate)).
  replace (Py.rstrip_by Py.is_space (py " by")) with (py " by") by (vm_compute; reflexivity).
  unfold parse_song_line.
  destruct (Py.split_first (py " by ") (c :: u ++ py " by")) as [[before after]|] eqn:Es;
    cbn [fst]; intros E.
  - apply split_first_Some in Es. apply (f_equal (@length _)) in Es.
    pose proof (strip_length before) as L. rewrite E in L.
    cbn [length] in Es, L. rewrite !length_app in Es. cbn [py list_ascii_of_string length] in Es.
    lia.
  - apply (f_equal (@length _)) in E. cbn [length] in E. rewrite length_app in E.
    cbn [py list_ascii_of_string length] in E. lia.
Qed.

(** X8.  The line that [create_playlist_from_directory] writes for an
    unmatched file, read back with its line feed, stripped and parsed as
    the main loop of add_unmatched_songs.py does, gives the cleaned track
    name and the trimmed artist name exactly when neither is empty and
    the word "by" does not occur in the track name after its first
    word. *)
Theorem unmatched_song_round_trip basename artist_name :
  no_line_break artist_name ->
  (parse_song_line (Py.strip (unmatched_song basename artist_name ++ [Py.newline]))
   = (clean_filename basename, Py.strip artist_name)
   <-> clean_filename basename <> [] /\ Py.strip artist_name <> [] /\
       ~ In (py "by") (tl (Py.split_ws (clean_filename basename)))).
Proof.
  intros _. rewrite strip_app_spaces by reflexivity. unfold unmatched_song.
  destruct (clean_filename_squeezed basename) as (ws & Ht & ->).
  rewrite (split_ws_unwords ws Ht).
  destruct ws as [|w ws'].
  { change (unwords []) with (@nil ascii). cbn [app]. split.
    - intros E. exfalso. apply (parse_song_line_by_first artist_name).
      rewrite E. reflexivity.
    - intros [H _]. congruence. }
  set (ws := w :: ws') in *.
  destruct (unwords_head w ws' ltac:(inversion Ht; assumption)) as (c & u & Eu & Hc).
  fold ws in Eu.
  destruct (decide (Py.strip artist_name = [])) as [Ha|Ha].
  { split.
    - intros E. exfalso. rewrite Eu in E.
      apply (parse_song_line_by_last c u artist_name Hc Ha). rewrite E. reflexivity.
    - intros (_ & H & _). contradiction. }
  assert (EL : Py.strip (unwords ws ++ py " by " ++ artist_name)
               = unwords ws ++ py " by " ++ Py.rstrip_by Py.is_space artist_name).
  { rewrite Eu. cbn [app]. rewrite app_assoc, strip_app_nonblank by assumption.
    rewrite <- app_assoc. reflexivity. }
  rewrite EL. unfold parse_song_line. split.
  - intros Heq. split; [rewrite Eu; discriminate|]. split; [exact Ha|]. intros Hin.
    destruct (split_first_by_early ws (Py.rstrip_by Py.is_space artist_name) Ht Hin)
      as (a0 & b0 & E & Hlen).
    rewrite E in Heq. injection Heq as Heq _.
    pose proof (strip_length a0) as L. rewrite Heq in L. lia.
  - intros (_ & _ & Hby).
    rewrite (split_first_by ws _ Ht Hby).
    rewrite (strip_unwords ws Ht), strip_rstrip. reflexivity.
Qed.

Lemma unmatched_song_round_trip_witness :
  no_line_break (py "The Beatles") /\
  parse_song_line (Py.strip (unmatched_song (py "01 Let It Be.mp3") (py "The Beatles")
                             ++ [Py.newline]))
  = (clean_filename (py "01 Let It Be.mp3"), Py.strip (py "The Beatles")).
Proof.
  split; [reflexivity|].
  apply (unmatched_song_round_trip (py "01 Let It Be.mp3") (py "The Beatles")).
  - reflexivity.
  - split; [vm_compute; discriminate|]. split; [vm_compute; discriminate|].
    vm_compute. intros [H|[H|H]]; [discriminate H | discriminate H | exact H].
Defined.

(** The title "Stand by Me" does not survive the round trip, and a file
    name that is cleaned to nothing leaves a line without title. *)
Lemma unmatched_song_lost :
  parse_song_line (Py.strip (unmatched_song (py "Stand by Me.mp3") (py "Ben E King")
                             ++ [Py.newline]))
  = (py "Stand", py "Me by Ben E King") /\
  parse_song_line (Py.strip (unmatched_song (py "01.mp3") (py "Artist") ++ [Py.newline]))
  = (py "by Artist", []).
Proof. split; vm_compute; reflexivity. Qed.
